(** * parse_results.py: normalisation of layout-optimizer results

    A shallow embedding of [scripts/parse_results.py] and the properties
    its specification states about it.

    Conventions of the embedding
    - a Python [str] is a list of code points; the development covers the
      code points below 256 (one [ascii] per code point), with the
      character classes Python and [re] assign to them;
    - a Python [float] is an IEEE 754 binary64 value, kept as an exact
      sign/mantissa/exponent triple; parsing, [%.Nf] formatting, [repr]
      and [round] are the correctly rounded operations of CPython;
    - a Python [dict] is an association list in insertion order;
    - an exception is a value of type [exn] in the error side of
      [result]. *)

From Stdlib Require Import List Ascii ZArith QArith Bool Lia Arith.
From Stdlib Require Import Permutation Sorted.
From Stdlib Require String.
Import ListNotations.
Close Scope Q_scope.
Close Scope Z_scope.
Open Scope nat_scope.

Set Implicit Arguments.

Declare Scope py_scope.
Delimit Scope py_scope with py.
String Notation String.string String.string_of_list_byte
  String.list_byte_of_string : py_scope.
Open Scope py_scope.

(* ================================================================== *)
(** * Python strings *)
(* ================================================================== *)

Definition str := list ascii.

(** A string literal, as the list of its characters. *)
Definition lit (s : String.string) : list ascii :=
  String.list_ascii_of_string s.
Coercion lit : String.string >-> list.

Definition code (c : ascii) : nat := nat_of_ascii c.

Definition str_eqb (a b : str) : bool :=
  if list_eq_dec ascii_dec a b then true else false.

Lemma str_eqb_eq (a b : str) : str_eqb a b = true <-> a = b.
Proof.
  unfold str_eqb. destruct (list_eq_dec ascii_dec a b); split; congruence.
Qed.

Lemma str_eqb_refl (a : str) : str_eqb a a = true.
Proof. now apply str_eqb_eq. Qed.

Lemma str_eqb_neq (a b : str) : str_eqb a b = false <-> a <> b.
Proof.
  unfold str_eqb. destruct (list_eq_dec ascii_dec a b); split; congruence.
Qed.

(** [not l] for a list or a string. *)
Definition is_nil {A} (l : list A) : bool :=
  match l with [] => true | _ => false end.

(** ** Character classes (code points 0..255) *)

Definition in_range (lo hi : nat) (c : ascii) : bool :=
  (lo <=? code c) && (code c <=? hi).

(** [str.isdecimal]; also [\d] and [[0-9]] of [re]. *)
Definition is_digit (c : ascii) : bool := in_range 48 57 c.

(** The class "[0-9.]". *)
Definition is_digit_or_dot (c : ascii) : bool :=
  is_digit c || (if ascii_dec c "."%char then true else false).

(** [str.isalpha]: the letters of ASCII and of Latin-1 (categories Lu, Ll,
    Lo): feminine and masculine ordinal, micro sign, and U+00C0..U+00FF
    without the multiplication and division signs. *)
Definition is_alpha (c : ascii) : bool :=
  in_range 65 90 c || in_range 97 122 c
  || (code c =? 170) || (code c =? 181) || (code c =? 186)
  || in_range 192 214 c || in_range 216 246 c || in_range 248 255 c.

(** Characters with a numeric value that are not decimal digits:
    superscripts one to three and the vulgar fractions. *)
Definition is_numeric_other (c : ascii) : bool :=
  (code c =? 178) || (code c =? 179) || (code c =? 185) || in_range 188 190 c.

(** [\w] of [re] on a [str] pattern: alphanumeric or underscore. *)
Definition is_word (c : ascii) : bool :=
  is_alpha c || is_digit c || is_numeric_other c || (code c =? 95).

(** [str.isspace], the characters removed by [str.strip()]. *)
Definition is_space (c : ascii) : bool :=
  in_range 9 13 c || in_range 28 32 c || (code c =? 133) || (code c =? 160).

(** The whitespace [float] accepts around a number: the space characters
    of C among the ASCII characters, and the spaces beyond ASCII. *)
Definition is_float_space (c : ascii) : bool :=
  in_range 9 13 c || (code c =? 32) || (code c =? 133) || (code c =? 160).

(** ** Searching *)

Fixpoint prefixb (p s : str) : bool :=
  match p, s with
  | [], _ => true
  | a :: p', b :: s' => if ascii_dec a b then prefixb p' s' else false
  | _ :: _, [] => false
  end.

(** [s.startswith(p)] *)
Definition startswith (s p : str) : bool := prefixb p s.

(** [str.partition] restricted to its success case: the text before and
    after the first occurrence of [sep]. *)
Fixpoint partition (sep s : str) : option (str * str) :=
  if prefixb sep s then Some ([], skipn (length sep) s)
  else match s with
       | [] => None
       | c :: t =>
           match partition sep t with
           | Some (a, b) => Some (c :: a, b)
           | None => None
           end
       end.

(** [sub in s] *)
Definition contains (sub s : str) : bool :=
  match partition sub s with Some _ => true | None => false end.

(** The text before the first occurrence of [sep], all of it when there is
    none. *)
Definition before (sep s : str) : str :=
  match partition sep s with
  | Some (a, _) => a
  | None => s
  end.

(** No proper suffix of [p] starts [p] again: two occurrences of [p] never
    overlap. *)
Definition border_free (p : str) : bool :=
  forallb (fun k => negb (prefixb (skipn k p) p)) (seq 1 (length p - 1)).

(** [s.split(sep)] for a non-empty [sep]. *)
Fixpoint split_fuel (n : nat) (sep s : str) : list str :=
  match n with
  | 0 => [s]
  | S n' =>
      match partition sep s with
      | None => [s]
      | Some (a, b) => a :: split_fuel n' sep b
      end
  end.

Definition split (sep s : str) : list str := split_fuel (S (length s)) sep s.

(** [s.split(sep, 1)] *)
Definition split1 (sep s : str) : list str :=
  match partition sep s with
  | None => [s]
  | Some (a, b) => [a; b]
  end.

(** [s.replace(old, new)] for a non-empty [old]. *)
Fixpoint replace_fuel (n : nat) (old new s : str) : str :=
  match n with
  | 0 => s
  | S n' =>
      match partition old s with
      | None => s
      | Some (a, b) => a ++ new ++ replace_fuel n' old new b
      end
  end.

Definition replace (s old new : str) : str :=
  replace_fuel (S (length s)) old new s.

(** [sep.join(parts)] *)
Fixpoint join (sep : str) (parts : list str) : str :=
  match parts with
  | [] => []
  | [p] => p
  | p :: rest => p ++ sep ++ join sep rest
  end.

(** ** Stripping *)

Fixpoint lstrip_by (f : ascii -> bool) (s : str) : str :=
  match s with
  | c :: t => if f c then lstrip_by f t else s
  | [] => []
  end.

Definition rstrip_by (f : ascii -> bool) (s : str) : str :=
  rev (lstrip_by f (rev s)).

(** [s.strip()] *)
Definition strip_by (f : ascii -> bool) (s : str) : str :=
  rstrip_by f (lstrip_by f s).

Definition strip (s : str) : str := strip_by is_space s.

Definition mem_char (chars : str) (c : ascii) : bool :=
  existsb (fun d => if ascii_dec c d then true else false) chars.

(** Neither string holds the first character of the other: an occurrence
    of one never overlaps an occurrence of the other. *)
Definition apart (p q : str) : bool :=
  match p, q with
  | c :: _, d :: _ => negb (mem_char q c) && negb (mem_char p d)
  | _, _ => false
  end.

(** [s.rstrip(chars)] *)
Definition rstrip (s chars : str) : str := rstrip_by (mem_char chars) s.

(** ** Exceptions *)

(** [ValueError arg] is the error of [float(arg)]; the other exceptions carry
    their message. *)
Inductive exn :=
| ValueError (arg : str)
| KeyError (key : str)
| IndexError
| FileNotFoundError (msg : str)
| OSError (msg : str).

Inductive result (A : Type) :=
| Ok (a : A)
| Raise (e : exn).
Arguments Ok {A} a.
Arguments Raise {A} e.

Definition bind {A B} (r : result A) (k : A -> result B) : result B :=
  match r with
  | Ok a => k a
  | Raise e => Raise e
  end.

Notation "'do' x <- r ; k" := (bind r (fun x => k))
  (at level 10, x pattern, r at level 100, k at level 200).

Fixpoint mapM {A B} (f : A -> result B) (l : list A) : result (list B) :=
  match l with
  | [] => Ok []
  | a :: t => do b <- f a; do bs <- mapM f t; Ok (b :: bs)
  end.

(** [l[i]] *)
Definition index {A} (l : list A) (i : nat) : result A :=
  match nth_error l i with
  | Some a => Ok a
  | None => Raise IndexError
  end.

(* ================================================================== *)
(** * Python floats (IEEE 754 binary64) *)
(* ================================================================== *)

(** [Fin neg m e] is [(-1)^neg * m * 2^e] with [0 <= m]; the canonical form
    has [m] odd, or [m = 0] and [e = 0]. *)
Inductive float :=
| Fin (neg : bool) (m e : Z)
| Inf (neg : bool)
| NaN.

Section Binary64.
Local Open Scope Z_scope.

Fixpoint norm_pos (p : positive) (e : Z) : positive * Z :=
  match p with
  | xO q => norm_pos q (e + 1)
  | _ => (p, e)
  end.

Definition mk_fin (neg : bool) (m e : Z) : float :=
  match m with
  | Zpos p => let (q, e') := norm_pos p e in Fin neg (Zpos q) e'
  | _ => Fin neg 0 0
  end.

(** Quotient rounded to nearest, ties to even. *)
Definition div_rne (n d : Z) : Z :=
  let q := n / d in
  let r := n mod d in
  if 2 * r <? d then q
  else if d <? 2 * r then q + 1
  else if Z.even q then q else q + 1.

(** [n * 10^p / d] and [n * 2^p / d] as fractions, for any sign of [p]. *)
Definition scale (base n d p : Z) : Z * Z :=
  if 0 <=? p then (n * base ^ p, d) else (n, d * base ^ (- p)).

(** The binary64 value nearest to [n / d], for [0 <= n] and [0 < d]:
    53 bits above the subnormal exponent -1074, overflow to infinity. *)
Definition round_binary64 (neg : bool) (n d : Z) : float :=
  if n =? 0 then Fin neg 0 0
  else
    let L0 := Z.log2 n - Z.log2 d in
    let (a, b) := scale 2 n d (- L0) in
    let L := if b <=? a then L0 else L0 - 1 in
    let e := Z.max (L - 52) (-1074) in
    let (n', d') := scale 2 n d (- e) in
    let m := div_rne n' d' in
    if 1024 <=? Z.log2 m + e then Inf neg else mk_fin neg m e.

(** The float nearest to [digits * 10^p10]. *)
Definition float_of_decimal (neg : bool) (digits p10 : Z) : float :=
  let (n, d) := scale 10 digits 1 p10 in round_binary64 neg n d.

Definition float_eqb (x y : float) : bool :=
  match x, y with
  | Fin s m e, Fin s' m' e' => Bool.eqb s s' && (m =? m') && (e =? e')
  | Inf s, Inf s' => Bool.eqb s s'
  | NaN, NaN => true
  | _, _ => false
  end.

(** ** Decimal digits *)

Definition digit_char (d : Z) : ascii := ascii_of_nat (48 + Z.to_nat d).

Definition digit_val (c : ascii) : Z := Z.of_nat (code c) - 48.

(** The decimal digits of a non-negative integer, without leading zeros. *)
Fixpoint int_digits_fuel (fuel : nat) (n : Z) : str :=
  match fuel with
  | O => []
  | S f =>
      if n <? 10 then [digit_char n]
      else int_digits_fuel f (n / 10) ++ [digit_char (n mod 10)]
  end.

Definition int_digits (n : Z) : str :=
  int_digits_fuel (S (Z.to_nat (Z.log2 n))) n.

(** The lowest [p] decimal digits of [n], zero padded. *)
Fixpoint low_digits (p : nat) (n : Z) : str :=
  match p with
  | O => []
  | S p' => low_digits p' (n / 10) ++ [digit_char (n mod 10)]
  end.

(** The integer a string of decimal digits denotes. *)
Definition digits_val (s : str) : Z :=
  fold_left (fun acc c => 10 * acc + digit_val c) s 0.

(** ** [format(x, ".{prec}f")] *)

Definition sign_str (neg : bool) : str := if neg then "-" else "".

Definition fmt_f (prec : nat) (x : float) : str :=
  match x with
  | NaN => "nan"
  | Inf neg => sign_str neg ++ "inf"
  | Fin neg m e =>
      let P := 10 ^ Z.of_nat prec in
      let (n, d) := scale 2 (m * P) 1 e in
      let k := div_rne n d in
      sign_str neg ++ int_digits (k / P)
        ++ match prec with
           | O => []
           | _ => "." ++ low_digits prec (k mod P)
           end
  end.

(** ** [repr(x)]: the shortest decimal string that reads back as [x] *)

(** [n / d < 10^k] *)
Definition lt_pow10 (n d k : Z) : bool :=
  let (a, b) := scale 10 1 1 k in n * b <? d * a.

Fixpoint dec_exp_from (fuel : nat) (n d k : Z) : Z :=
  match fuel with
  | O => k
  | S f => if lt_pow10 n d k then k else dec_exp_from f n d (k + 1)
  end.

(** The [k] with [10^(k-1) <= n/d < 10^k], searched upwards from an
    under-estimate obtained from the binary logarithm. *)
Definition dec_exp (n d : Z) : Z :=
  dec_exp_from 8 n d ((Z.log2 n - Z.log2 d - 1) * 30103 / 100000 - 1).

(** Among the decimals with [nd] significant digits next to [n/d] (the one
    below, [lo * 10^p], and the one above), those that read back as [x];
    the nearer one when both do. *)
Fixpoint shortest (fuel : nat) (x : float) (n d k nd : Z) : Z * Z :=
  let p := k - nd in
  let (a, b) := scale 10 1 1 p in
  let lo := (n * b) / (d * a) in
  let hi := lo + 1 in
  match fuel with
  | O => (div_rne (n * b) (d * a), p)
  | S f =>
      let oklo := float_eqb (float_of_decimal false lo p) x in
      let okhi := float_eqb (float_of_decimal false hi p) x in
      match oklo, okhi with
      | true, true => (div_rne (n * b) (d * a), p)
      | true, false => (lo, p)
      | false, true => (hi, p)
      | false, false => shortest f x n d k (nd + 1)
      end
  end.

Fixpoint strip_zeros_rev (r : str) (p : Z) : str * Z :=
  match r with
  | c :: t =>
      if ascii_dec c "0"%char then
        match t with
        | [] => (r, p)
        | _ => strip_zeros_rev t (p + 1)
        end
      else (r, p)
  | [] => ([], p)
  end.

Definition zeros (n : Z) : str := repeat "0"%char (Z.to_nat n).

(** The exponent suffix of the scientific form: sign and at least two digits. *)
Definition exp_str (ex : Z) : str :=
  let a := Z.abs ex in
  (if ex <? 0 then "e-" else "e+")
    ++ (if a <? 10 then "0" else "") ++ int_digits a.

(** Digits [ds] with the decimal point after the first [decpt] of them:
    fixed notation for [-4 < decpt <= 16], scientific otherwise. *)
Definition render_repr (ds : str) (decpt : Z) : str :=
  let nd := Z.of_nat (length ds) in
  if (decpt <=? -4) || (16 <? decpt) then
    firstn 1 ds
      ++ (match skipn 1 ds with [] => [] | rest => "." ++ rest end)
      ++ exp_str (decpt - 1)
  else if decpt <=? 0 then "0." ++ zeros (- decpt) ++ ds
  else if nd <=? decpt then ds ++ zeros (decpt - nd) ++ ".0"
  else firstn (Z.to_nat decpt) ds ++ "." ++ skipn (Z.to_nat decpt) ds.

Definition repr (x : float) : str :=
  match x with
  | NaN => "nan"
  | Inf neg => sign_str neg ++ "inf"
  | Fin neg m e =>
      if m =? 0 then sign_str neg ++ "0.0"
      else
        let (n, d) := scale 2 m 1 e in
        let k := dec_exp n d in
        let (c, p) := shortest 17 (Fin false m e) n d k 1 in
        let (r, p') := strip_zeros_rev (rev (int_digits c)) p in
        let ds := rev r in
        sign_str neg ++ render_repr ds (Z.of_nat (length ds) + p')
  end.

End Binary64.

(** ** [float(s)] *)

Section FloatParsing.
Local Open Scope Z_scope.

(** [digit (["_"] digit)*]: the digits read, without the underscores, and the
    rest of the input; no digits when the input does not start with one. *)
Fixpoint digitpart (s : str) : str * str :=
  match s with
  | c :: t =>
      if is_digit c then
        match digitpart t with
        | (d :: ds, r) => (c :: d :: ds, r)
        | ([], _) =>
            match t with
            | u :: t' =>
                if ascii_dec u "_"%char then
                  match digitpart t' with
                  | (d :: ds, r) => (c :: d :: ds, r)
                  | ([], _) => ([c], t)
                  end
                else ([c], t)
            | [] => ([c], [])
            end
        end
      else ([], s)
  | [] => ([], [])
  end.

(** An optional sign: whether it is a minus, and the rest. *)
Definition read_sign (s : str) : bool * str :=
  match s with
  | c :: t =>
      if ascii_dec c "-"%char then (true, t)
      else if ascii_dec c "+"%char then (false, t)
      else (false, s)
  | [] => (false, [])
  end.

Definition lower_char (c : ascii) : ascii :=
  if in_range 65 90 c then ascii_of_nat (code c + 32) else c.

Definition lower (s : str) : str := map lower_char s.

(** [e] or [E], an optional sign and a digit part; no exponent is 0. *)
Definition read_exponent (s : str) : option Z :=
  match s with
  | [] => Some 0
  | c :: t =>
      if ascii_dec (lower_char c) "e"%char then
        let (neg, t') := read_sign t in
        match digitpart t' with
        | (d :: ds, []) =>
            let v := digits_val (d :: ds) in Some (if neg then - v else v)
        | _ => None
        end
      else None
  end.

(** [number [exponent]] with
    [number ::= [digitpart] "." digitpart | digitpart ["."]]. *)
Definition read_number (neg : bool) (s : str) : option float :=
  let (ip, r1) := digitpart s in
  let '(fp, r2, ok) :=
    match r1 with
    | c :: t =>
        if ascii_dec c "."%char then
          let (fp, r2) := digitpart t in
          (fp, r2, negb (Nat.eqb (length ip + length fp) 0))
        else ([], r1, negb (Nat.eqb (length ip) 0))
    | [] => ([], [], negb (Nat.eqb (length ip) 0))
    end in
  if ok then
    match read_exponent r2 with
    | Some ex =>
        Some (float_of_decimal neg (digits_val (ip ++ fp)) (ex - Z.of_nat (length fp)))
    | None => None
    end
  else None.

(** [float(s)]: surrounding whitespace, a sign, then [inf], [infinity],
    [nan] in any case, or a decimal number. *)
Definition float_of_str (s : str) : result float :=
  let (neg, body) := read_sign (strip_by is_float_space s) in
  let l := lower body in
  if str_eqb l "inf" || str_eqb l "infinity" then Ok (Inf neg)
  else if str_eqb l "nan" then Ok NaN
  else match read_number neg body with
       | Some x => Ok x
       | None => Raise (ValueError s)
       end.

(** [round(x, ndigits)] on a float: the decimal with [ndigits] places
    nearest to [x], read back. *)
Definition round_float (x : float) (ndigits : nat) : float :=
  match x with
  | Fin neg m e =>
      let P := 10 ^ Z.of_nat ndigits in
      let (n, d) := scale 2 (m * P) 1 e in
      float_of_decimal neg (div_rne n d) (- Z.of_nat ndigits)
  | _ => x
  end.

(** ** Numbers: a JSON number is an [int] or a [float] *)

Inductive num :=
| NInt (z : Z)
| NFloat (x : float).

(** [round(v, ndigits)] *)
Definition round (v : num) (ndigits : nat) : num :=
  match v with
  | NInt z => NInt z
  | NFloat x => NFloat (round_float x ndigits)
  end.

(** The value of a number on the extended rational line; [None] for NaN. *)
Inductive ereal :=
| MinusInf
| Ratio (q : Q)
| PlusInf.

Definition float_value (x : float) : option ereal :=
  match x with
  | Fin neg m e =>
      Some (Ratio (inject_Z (if neg then - m else m) * Qpower 2 e))
  | Inf neg => Some (if neg then MinusInf else PlusInf)
  | NaN => None
  end.

Definition value (v : num) : option ereal :=
  match v with
  | NInt z => Some (Ratio (inject_Z z))
  | NFloat x => float_value x
  end.

Definition ereal_ltb (a b : ereal) : bool :=
  match a, b with
  | MinusInf, MinusInf => false
  | MinusInf, _ => true
  | Ratio _, MinusInf => false
  | Ratio p, Ratio q => negb (Qle_bool q p)
  | Ratio _, PlusInf => true
  | PlusInf, _ => false
  end.

(** [a < b]; false when either side is NaN. *)
Definition num_ltb (a b : num) : bool :=
  match value a, value b with
  | Some x, Some y => ereal_ltb x y
  | _, _ => false
  end.


(** [format(v, ".{prec}f")] of a number. *)
Definition fmt_num (prec : nat) (v : num) : str :=
  match v with
  | NInt z => fmt_f prec (round_binary64 (z <? 0) (Z.abs z) 1)
  | NFloat x => fmt_f prec x
  end.

End FloatParsing.

(** ** Decimal numbers in a text *)

(** A non-empty string of decimal digits. *)
Definition is_digits (s : str) : bool := negb (is_nil s) && forallb is_digit s.



(** The float that [float] reads from the digits [i], a point and the
    digits [f]. *)
Definition decimal_value (i f : str) : float :=
  float_of_decimal false (digits_val (i ++ f)) (- Z.of_nat (length f)).

(** The number [x] with three places, as [format_freq] leaves it. *)
Definition three_places (x : float) : str :=
  let formatted := rstrip (rstrip (fmt_f 3 x) "0") "." in
  if contains "." formatted then formatted else formatted ++ ".0".

(* ================================================================== *)
(** * Regular expressions *)
(* ================================================================== *)

(** The fragment of [re] the program uses: sequences of literal characters,
    character classes, greedy repetition of a class, an optional character,
    a negative lookahead for a literal, and capture groups. *)
Inductive atom :=
| Chr (c : ascii)
| Cls (f : ascii -> bool)
| Star (f : ascii -> bool)
| Opt (c : ascii)
| NotAhead (l : str)
| GOpen
| GClose.

Definition regex := list atom.

(** [f*] followed by [k], greedy with backtracking: the longest run of [f]
    first, shorter runs when what follows fails. *)
Fixpoint star {X} (f : ascii -> bool) (k : str -> option X) (s : str)
  : option X :=
  match s with
  | c :: t =>
      if f c then
        match star f k t with
        | Some x => Some x
        | None => k s
        end
      else k s
  | [] => k []
  end.

(** A match of [r] at the start of [s]: the captured groups in order and the
    text left after the match. [opened] holds the input at each group
    parenthesis still open. *)
Fixpoint match_here (r : regex) (opened caps : list str) (s : str)
  : option (list str * str) :=
  match r with
  | [] => Some (caps, s)
  | Chr c :: r' =>
      match s with
      | d :: t => if ascii_dec c d then match_here r' opened caps t else None
      | [] => None
      end
  | Cls f :: r' =>
      match s with
      | d :: t => if f d then match_here r' opened caps t else None
      | [] => None
      end
  | Star f :: r' => star f (match_here r' opened caps) s
  | Opt c :: r' =>
      match s with
      | d :: t =>
          if ascii_dec c d then
            match match_here r' opened caps t with
            | Some x => Some x
            | None => match_here r' opened caps s
            end
          else match_here r' opened caps s
      | [] => match_here r' opened caps []
      end
  | NotAhead l :: r' =>
      if prefixb l s then None else match_here r' opened caps s
  | GOpen :: r' => match_here r' (s :: opened) caps s
  | GClose :: r' =>
      match opened with
      | o :: os =>
          match_here r' os (caps ++ [firstn (length o - length s) o]) s
      | [] => None
      end
  end.

(** The input cut into the leftmost non-overlapping matches and the
    characters between them. *)
Inductive piece :=
| Text (c : ascii)
| Match (groups : list str).

Fixpoint re_scan (r : regex) (skip : nat) (s : str) : list piece :=
  match s with
  | [] => []
  | c :: t =>
      match skip with
      | S k => re_scan r k t
      | O =>
          match match_here r [] [] s with
          | Some (caps, rest) =>
              match length s - length rest with
              | O => Match caps :: Text c :: re_scan r 0 t
              | S k => Match caps :: re_scan r k t
              end
          | None => Text c :: re_scan r 0 t
          end
      end
  end.

(** [re.findall(r, s)]: the groups of every match. *)
Definition re_findall (r : regex) (s : str) : list (list str) :=
  flat_map (fun p => match p with Match g => [g] | Text _ => [] end)
    (re_scan r 0 s).

(** [re.sub(r, f, s)] with a function [f] of the groups of the match. *)
Definition re_sub (r : regex) (f : list str -> result str) (s : str)
  : result str :=
  do parts <- mapM (fun p => match p with
                             | Match g => f g
                             | Text c => Ok [c]
                             end) (re_scan r 0 s);
  Ok (concat parts).

(** [re.search(r, s)]: the groups of the first match. *)
Definition re_search (r : regex) (s : str) : option (list str) :=
  hd_error (re_findall r s).

Definition lits (s : str) : regex := map Chr s.

(** The pattern "\d+". *)
Definition digits1 : regex := [Cls is_digit; Star is_digit].

(** The pattern "\d+\.\d+" followed by [r]. *)
Definition decimal (r : regex) : regex :=
  [Cls is_digit; Star is_digit; Chr "."; Cls is_digit; Star is_digit] ++ r.

(** The class ".": any character but a newline. *)
Definition not_newline (c : ascii) : bool := negb (code c =? 10).

(** The pattern "(\w{2}) \(([0-9.]+)%\)". *)
Definition pat_worst : regex :=
  [GOpen; Cls is_word; Cls is_word; GClose] ++ lits " ("
    ++ [GOpen; Cls is_digit_or_dot; Star is_digit_or_dot; GClose]
    ++ lits "%)".

(** The pattern "(\d+\.\d+)(?!%\))". *)
Definition pat_bare : regex :=
  [GOpen] ++ digits1 ++ lits "." ++ digits1 ++ [GClose; NotAhead "%)"].

(** The pattern "(\d+\.\d+)%,". *)
Definition pat_percent_comma : regex :=
  [GOpen] ++ digits1 ++ lits "." ++ digits1 ++ [GClose] ++ lits "%,".

(** The pattern "freq: " followed by the group "\d+\.?" and any number of
    further digits. *)
Definition pat_freq : regex :=
  lits "freq: " ++ [GOpen] ++ digits1 ++ [Opt "."; Star is_digit; GClose].

(** The part of [pat_freq] after "freq: ": the group. *)
Definition freq_tail : regex :=
  [GOpen; Cls is_digit; Star is_digit; Opt "."; Star is_digit; GClose].

Definition newline : str := [ascii_of_nat 10].

(** The pattern "Layout string \(layer 1\):\n(.+)". *)
Definition pat_layout_string : regex :=
  lits ("Layout string (layer 1):" ++ newline)
    ++ [GOpen; Cls not_newline; Star not_newline; GClose].

(* ================================================================== *)
(** * Dictionaries *)
(* ================================================================== *)

(** A [dict] with string keys: the bindings in insertion order, one per
    key. *)
Definition dict (V : Type) := list (str * V).

Fixpoint dict_get {V} (d : dict V) (k : str) : option V :=
  match d with
  | [] => None
  | (k', v) :: t => if str_eqb k k' then Some v else dict_get t k
  end.

(** [d[k] = v]: an existing key keeps its place. *)
Fixpoint dict_set {V} (d : dict V) (k : str) (v : V) : dict V :=
  match d with
  | [] => [(k, v)]
  | (k', v') :: t =>
      if str_eqb k k' then (k', v) :: t else (k', v') :: dict_set t k v
  end.

Definition dict_keys {V} (d : dict V) : list str := map fst d.

(** [k in d] *)
Definition dict_mem {V} (d : dict V) (k : str) : bool :=
  match dict_get d k with Some _ => true | None => false end.

(** [d[k]] *)
Definition dict_item {V} (d : dict V) (k : str) : result V :=
  match dict_get d k with
  | Some v => Ok v
  | None => Raise (KeyError k)
  end.

(* ================================================================== *)
(** * The program *)
(* ================================================================== *)

(** [x in l] for a list of strings. *)
Definition in_list (x : str) (l : list str) : bool := existsb (str_eqb x) l.

(** [m.group(i)] for [1 <= i]. *)
Definition group (g : list str) (i : nat) : str := nth (i - 1) g [].

(** No string occurs twice in [l]. *)
Fixpoint nodupb (l : list str) : bool :=
  match l with
  | [] => true
  | x :: t => negb (in_list x t) && nodupb t
  end.

(** ** Constants *)

(** The format of a column; the decimals of the source's tuples are those
    of its [number] columns, every other column has [None] there. *)
Inductive format_type :=
| number (decimals : nat)
| message_only
| worst_only.

Record column := Column {
  display_header : str;
  metric_name : str;
  format : format_type
}.

Definition METRICS_ORDER : list column := [
  Column "Total Cost" "total_cost" (number 1);
  Column "Hands Disbalance" "Hand Disbalance" message_only;
  Column "Finger Disbalance" "Finger Balance" message_only;
  Column "Cluster Rolls" "Cluster Rolls" (number 2);
  Column "Scissoring" "Scissoring" (number 2);
  Column "Key Costs" "Key Costs" (number 2);
  Column "Movement Pattern" "Movement Pattern" (number 2);
  Column "Cluster Rolls Worst" "Cluster Rolls" worst_only;
  Column "Scissoring Worst" "Scissoring" worst_only;
  Column "Movement Pattern Worst" "Movement Pattern" worst_only;
  Column "Secondary Bigrams Worst" "Secondary Bigrams" worst_only;
  Column "Trigrams Worst" "No Handswitch in Trigram" worst_only
].

Definition COLUMN_HEADERS : list str :=
  lit "Layout" :: map display_header METRICS_ORDER.

(** ** Corpus handling *)

(** [s.isalpha()] *)
Definition isalpha (s : str) : bool := negb (is_nil s) && forallb is_alpha s.

(** What a line of the corpus file contributes: its bigram and frequency
    when the tests of the loop body pass. *)
Definition parse_line (line : str) : result (option (str * float)) :=
  let parts := split " " (strip line) in
  if 2 <=? length parts then
    do p0 <- index parts 0;
    do freq <- float_of_str p0;
    do bigram <- index parts 1;
    if (length bigram =? 2) && isalpha bigram
    then Ok (Some (bigram, freq))
    else Ok None
  else Ok None.

(** The body of the loop of [load_bigram_frequencies] for one line. *)
Definition load_line (frequencies : dict float) (line : str)
  : result (dict float) :=
  do entry <- parse_line line;
  match entry with
  | Some (bigram, freq) => Ok (dict_set frequencies bigram freq)
  | None => Ok frequencies
  end.

Fixpoint load_lines (frequencies : dict float) (lines : list str)
  : result (dict float) :=
  match lines with
  | [] => Ok frequencies
  | line :: rest =>
      do frequencies' <- load_line frequencies line;
      load_lines frequencies' rest
  end.

(** The frequency the table ends with for [bigram], given what each line
    contributes: that of the last line that holds it. *)
Fixpoint last_entry (bigram : str) (entries : list (option (str * float)))
  : option float :=
  match entries with
  | [] => None
  | e :: rest =>
      match last_entry bigram rest with
      | Some x => Some x
      | None =>
          match e with
          | Some (b, x) => if str_eqb bigram b then Some x else None
          | None => None
          end
      end
  end.

(** ** Message processing *)

(** The pair made of the two groups of a match. *)
Definition finding (g : list str) : result (str * float) :=
  do percent <- float_of_str (group g 2);
  Ok (group g 1, percent).

Definition extract_worst_bigrams (message : str)
  : result (list (str * float)) :=
  if negb (contains "Worst:" message) then Ok []
  else
    do worst_section <- index (split "Worst:" message) 1;
    do worst_section <-
      (if contains ";" worst_section
       then index (split ";" worst_section) 0
       else Ok worst_section);
    mapM finding (re_findall pat_worst worst_section).

(** The frequency of a bigram, [0] when absent. *)
Definition lookup_freq (bigram_frequencies : dict float) (bigram : str)
  : num :=
  match dict_get bigram_frequencies bigram with
  | Some f => NFloat f
  | None => NInt 0
  end.

Definition freq_str (freq : num) : str :=
  rstrip (rstrip (fmt_num 2 freq ++ "%") "0") ".".

Definition enhanced_part (bigram_frequencies : dict float)
  (finding : str * float) : str :=
  let (bigram, percent) := finding in
  let freq := lookup_freq bigram_frequencies bigram in
  bigram ++ " (" ++ repr percent ++ "%, freq: " ++ freq_str freq ++ ")".

Definition add_frequencies (message : str) (bigram_frequencies : dict float)
  : result str :=
  do worst_bigrams <- extract_worst_bigrams message;
  if is_nil worst_bigrams || negb (contains "Worst:" message) then Ok message
  else
    let enhanced_parts :=
      map (enhanced_part bigram_frequencies) worst_bigrams in
    if is_nil enhanced_parts then Ok message
    else
      do before_worst <- index (split "Worst:" message) 0;
      let enhanced_message :=
        before_worst ++ "Worst: " ++ join ", " enhanced_parts in
      if contains ";" message then
        do after_semicolon <- index (split1 ";" message) 1;
        Ok (enhanced_message ++ ";" ++ after_semicolon)
      else Ok enhanced_message.

Definition prefixes : list str :=
  [lit "Finger loads % (no thumb): "; lit "Hand loads % (no thumb): ";
   lit "Worst: "].

(** The replacement functions of [clean_worst_message]: the number of the
    first group with [decimals] places, and what follows it in the match. *)
Definition round_group (decimals : nat) (suffix : str) (g : list str)
  : result str :=
  do x <- float_of_str (group g 1);
  Ok (fmt_f decimals x ++ suffix).

(** The three steps of [clean_worst_message]. *)
Definition remove_non_fixed (message : str) : result str :=
  if contains ";  Worst non-fixed:" message
  then index (split ";  Worst non-fixed:" message) 0
  else Ok message.

Definition remove_prefixes (message : str) : str :=
  fold_left (fun m prefix => replace m prefix "") prefixes message.

Definition disbalance_metrics : list str :=
  [lit "Hand Disbalance"; lit "Finger Balance"].

Definition round_numbers (metric_name message : str) : result str :=
  if in_list metric_name disbalance_metrics
  then re_sub pat_bare (round_group 1 "") message
  else re_sub pat_percent_comma (round_group 2 "%,") message.

Definition clean_worst_message (message metric_name : str) : result str :=
  do message <- remove_non_fixed message;
  do message <- round_numbers metric_name (remove_prefixes message);
  Ok (strip message).

Definition format_freq (g : list str) : result str :=
  do freq_value <- float_of_str (group g 1);
  let formatted := three_places freq_value in
  Ok ("freq: " ++ formatted).

Definition format_frequencies (message : str) : result str :=
  re_sub pat_freq format_freq message.

(** ** Layout parsing and processing *)

(** The records of the JSON results file. *)
Record MetricCost := {
  core_name : str;
  core_message : str;
  weighted_cost : num
}.

Record IndividualResult := {
  metric_costs : list MetricCost
}.

Record RawResult := {
  total_cost : num;
  layout : str;
  individual_results : list IndividualResult
}.

Record metric := Metric {
  cost : num;
  message : str
}.

Definition process_metric_cost (bigram_frequencies : dict float)
  (metrics_data : dict metric) (metric_cost : MetricCost)
  : result (dict metric) :=
  do message <-
    (if in_list (core_name metric_cost) [lit "Scissoring"; lit "Cluster Rolls"]
        && negb (is_nil bigram_frequencies)
     then do m <- add_frequencies (core_message metric_cost) bigram_frequencies;
          format_frequencies m
     else Ok (core_message metric_cost));
  Ok (dict_set metrics_data (core_name metric_cost)
        (Metric (weighted_cost metric_cost) message)).

Fixpoint foldM {A B} (f : B -> A -> result B) (l : list A) (b : B)
  : result B :=
  match l with
  | [] => Ok b
  | a :: t => do b' <- f b a; foldM f t b'
  end.

Definition process_layout_metrics (raw : RawResult)
  (bigram_frequencies : dict float) : result (dict metric) :=
  foldM (process_metric_cost bigram_frequencies)
    (flat_map metric_costs (individual_results raw)) [].

(** A cell of a row: a number or a text. *)
Inductive cell :=
| CNum (v : num)
| CStr (s : str).

Definition row := dict cell.

Definition build_cell (total_cost : num) (metrics_data : dict metric)
  (c : column) : result cell :=
  match format c, dict_get metrics_data (metric_name c) with
  | number decimals, found =>
      if str_eqb (display_header c) "Total Cost"
      then Ok (CNum (round total_cost decimals))
      else match found with
           | Some m => Ok (CNum (round (cost m) decimals))
           | None => Ok (CStr "")
           end
  | _, Some m =>
      do message <- clean_worst_message (message m) (metric_name c);
      Ok (CStr message)
  | _, None => Ok (CStr "")
  end.

Definition build_layout_row (layout : str) (total_cost : num)
  (metrics_data : dict metric) : result row :=
  do h0 <- index COLUMN_HEADERS 0;
  foldM (fun (r : row) c =>
           do v <- build_cell total_cost metrics_data c;
           Ok (dict_set r (display_header c) v))
    METRICS_ORDER (dict_set [] h0 (CStr layout)).

(** [sorted(l, key=key)]: a stable sort that compares keys with [<] only;
    each element goes in front of the first one that is not smaller. *)
Fixpoint insert_by {A} (key : A -> num) (x : A) (l : list A) : list A :=
  match l with
  | [] => [x]
  | y :: t =>
      if num_ltb (key y) (key x) then y :: insert_by key x t else x :: y :: t
  end.

Definition sorted {A} (l : list A) (key : A -> num) : list A :=
  fold_right (insert_by key) [] l.



(** The part of [parse_layouts] after the files are read. *)
Definition layout_records (data : list RawResult)
  (bigram_frequencies : dict float) : result (list row) :=
  let sorted_data := sorted data total_cost in
  mapM (fun raw =>
          do metrics_data <- process_layout_metrics raw bigram_frequencies;
          build_layout_row (layout raw) (total_cost raw) metrics_data)
    sorted_data.

(** The rows [export_csv] hands to the writer: the header, then the cells of
    each record in header order. *)
Definition csv_rows (records : list row) : result (list (list cell)) :=
  do body <- mapM (fun rec => mapM (dict_item rec) COLUMN_HEADERS) records;
  Ok (map CStr COLUMN_HEADERS :: body).

(* ================================================================== *)
(** * Files, output and the command line *)
(* ================================================================== *)

(** A path is kept as its string. *)
Definition path := str.

(** The file system and the terminal: the text of every file, the
    directories, and the lines echoed so far. *)
Record world := World {
  files : dict str;
  dirs : list path;
  stdout : list str
}.

(** What the program takes from [pathlib], [json], [csv], [rich] and its own
    location; the text of the Markdown report, which no property below
    looks into, is taken as a function of what [export_markdown] receives. *)
Record platform := Platform {
  Path : str -> path;
  parent : path -> path;
  parents : path -> list path;
  joinpath : path -> str -> path;
  with_suffix : path -> str -> path;
  stem : path -> str;
  name : path -> str;
  script_file : path;
  json_load : str -> result (list RawResult);
  csv_text : list (list cell) -> str;
  svg_text : list str -> str;
  markdown_text : list row -> list (str * str) -> str
}.

(** A computation on the world that may raise; the effects made before an
    exception stay. *)
Definition io (A : Type) := world -> result A * world.

Definition ret {A} (a : A) : io A := fun w => (Ok a, w).

Definition raise {A} (e : exn) : io A := fun w => (Raise e, w).

Definition lift {A} (r : result A) : io A := fun w => (r, w).

Definition iobind {A B} (c : io A) (k : A -> io B) : io B :=
  fun w =>
    match c w with
    | (Ok a, w') => k a w'
    | (Raise e, w') => (Raise e, w')
    end.

Notation "'run' x <- c ; k" := (iobind c (fun x => k))
  (at level 10, x pattern, c at level 100, k at level 200).
Notation "'run_' c ; k" := (iobind c (fun _ => k))
  (at level 10, c at level 100, k at level 200).

Fixpoint io_fold {A B} (f : B -> A -> io B) (l : list A) (b : B) : io B :=
  match l with
  | [] => ret b
  | a :: t => run b' <- f b a; io_fold f t b'
  end.

Definition is_file (w : world) (p : path) : bool := dict_mem (files w) p.

Definition is_dir (w : world) (p : path) : bool := in_list p (dirs w).

(** [p.exists()] *)
Definition path_exists (w : world) (p : path) : bool :=
  is_file w p || is_dir w p.

Definition exists_ (p : path) : io bool := fun w => (Ok (path_exists w p), w).

(** The message of the operating system's error 2. *)
Definition enoent (p : path) : str :=
  "[Errno 2] No such file or directory: '" ++ p ++ "'".

(** [typer.echo(line)] *)
Definition echo (line : str) : io unit :=
  fun w => (Ok tt, World (files w) (dirs w) (stdout w ++ [line])).

(** An error of the operating system: not the error [parse_diagrams] raises
    itself. *)
Definition os_error (e : exn) : Prop :=
  match e with
  | OSError _ => True
  | FileNotFoundError msg => exists p, msg = enoent p
  | _ => False
  end.

(** Every exception of the computation satisfies [P]. *)
Definition raises_only {A} (P : exn -> Prop) (c : io A) : Prop :=
  forall w e w', c w = (Raise e, w') -> P e.

(** The computation removes no file. *)
Definition keeps_files {A} (c : io A) : Prop :=
  forall w r w', c w = (r, w') ->
    forall p, is_file w p = true -> is_file w' p = true.

Section Cli.
Variable pf : platform.

(** [p.mkdir(parents=True, exist_ok=True)] *)
Definition mkdir_parents (p : path) : io unit :=
  fun w =>
    if existsb (is_file w) (p :: parents pf p)
    then (Raise (OSError p), w)
    else (Ok tt, World (files w) (p :: parents pf p ++ dirs w) (stdout w)).

(** [p.mkdir(exist_ok=True)] *)
Definition mkdir (p : path) : io unit :=
  fun w =>
    if is_dir w p then (Ok tt, w)
    else if is_file w p then (Raise (OSError p), w)
    else if is_dir w (parent pf p)
         then (Ok tt, World (files w) (p :: dirs w) (stdout w))
         else (Raise (FileNotFoundError (enoent p)), w).

(** [open(p, encoding="utf-8").read()] *)
Definition read_text (p : path) : io str :=
  fun w =>
    match dict_get (files w) p with
    | Some text => (Ok text, w)
    | None =>
        if is_dir w p then (Raise (OSError p), w)
        else (Raise (FileNotFoundError (enoent p)), w)
    end.

(** The file [p] opened for writing holds [text]. *)
Definition write_text (p : path) (text : str) : io unit :=
  fun w =>
    if is_dir w p then (Raise (OSError p), w)
    else if is_file w p || is_dir w (parent pf p)
         then (Ok tt, World (dict_set (files w) p text) (dirs w) (stdout w))
         else (Raise (FileNotFoundError (enoent p)), w).

(** The lines a text file is read by, each with its line end. *)
Fixpoint readlines_from (cur : str) (text : str) : list str :=
  match text with
  | [] => match cur with [] => [] | _ => [rev cur] end
  | c :: t =>
      if code c =? 10 then rev (c :: cur) :: readlines_from [] t
      else readlines_from (c :: cur) t
  end.

Definition readlines (text : str) : list str := readlines_from [] text.

(** ** Corpus handling *)

Definition get_corpus_paths (corpus_name : str) : path * path * path :=
  let script_dir := parent pf (script_file pf) in
  let project_root := parent pf script_dir in
  let corpus_dir := joinpath pf (joinpath pf project_root "ngrams") corpus_name in
  let ngrams_file := joinpath pf corpus_dir "2-grams.txt" in
  (project_root, corpus_dir, ngrams_file).

Definition load_bigram_frequencies (corpus_name : str) : io (dict float) :=
  let '(_, _, ngrams_file) := get_corpus_paths corpus_name in
  run text <- read_text ngrams_file;
  lift (load_lines [] (readlines text)).

(** ** Layout parsing *)

(** The truth value of an optional string argument. *)
Definition given (o : option str) : option str :=
  match o with
  | Some (c :: t) => Some (c :: t)
  | _ => None
  end.

Definition parse_layouts (json_file : path) (corpus_name : option str)
  : io (list row) :=
  run text <- read_text json_file;
  run data <- lift (json_load pf text);
  run bigram_frequencies <-
    match given corpus_name with
    | Some c => load_bigram_frequencies c
    | None => ret []
    end;
  lift (layout_records data bigram_frequencies).

(** ** Layout diagrams *)

Fixpoint diagram_body (lines : list str) : list str :=
  match lines with
  | [] => []
  | line :: rest =>
      if contains "Layout string" line then []
      else if is_nil (strip line) then diagram_body rest
           else line :: diagram_body rest
  end.

(** The lines after the first one that holds the marker. *)
Fixpoint after_marker (lines : list str) : option (list str) :=
  match lines with
  | [] => None
  | line :: rest =>
      if contains "Layout (layer 1):" line then Some rest
      else after_marker rest
  end.

Definition parse_layout_diagram (text : str) : list str :=
  match after_marker (split newline text) with
  | None => []
  | Some lines => diagram_body lines
  end.

(** The comparison of a character with the placeholder literal of the
    source: that literal has three code points, the second above 255, and no
    single character equals it. *)
Definition is_placeholder (c : ascii) : bool := false.

Definition style_char (c : ascii) : str :=
  if is_placeholder c then "[gray]" ++ [c] ++ "[/gray]"
  else if is_alpha c then "[yellow]" ++ [c] ++ "[/yellow]"
  else [c].

(** [export_svg]: the styled lines go to the console, whose record is saved
    at [output_path]. *)
Definition export_svg (layout_lines : list str) (output_path : path)
  : io unit :=
  let styled := map (fun line => concat (map style_char line)) layout_lines in
  write_text output_path (svg_text pf styled).

(** The loop of [parse_diagrams] that cuts the text into sections: the
    sections closed so far and the lines of the current one. *)
Definition section_step (st : list str * list str) (line : str)
  : list str * list str :=
  let (layout_sections, current_section) := st in
  if startswith line "Layout (layer 1):" && negb (is_nil current_section)
  then (layout_sections ++ [join newline current_section], [line])
  else (layout_sections, current_section ++ [line]).

Definition layout_sections_of (content : str) : list str :=
  let (layout_sections, current_section) :=
    fold_left section_step (split newline content) ([], []) in
  if is_nil current_section then layout_sections
  else layout_sections ++ [join newline current_section].

Definition diagram_step (output_path : path)
  (generated_layouts : list (str * str)) (section : str)
  : io (list (str * str)) :=
  match re_search pat_layout_string section with
  | None => ret generated_layouts
  | Some g =>
      let layout_string := strip (group g 1) in
      let layout_lines := parse_layout_diagram section in
      if is_nil layout_lines then ret generated_layouts
      else
        let svg_path := joinpath pf output_path (layout_string ++ ".svg") in
        run_ export_svg layout_lines svg_path;
        run_ echo ("Generated: " ++ svg_path);
        ret (generated_layouts ++ [(layout_string, svg_path)])
  end.

Definition parse_diagrams (txt_file output_dir : path)
  : io (list (str * str)) :=
  run found <- exists_ txt_file;
  if negb found
  then raise (FileNotFoundError ("Results file not found: " ++ txt_file))
  else
    let output_path := Path pf output_dir in
    run_ mkdir output_path;
    run content <- read_text txt_file;
    io_fold (diagram_step output_path) (layout_sections_of content) [].

(** ** Export *)

(** [export_csv]: the file is opened, the header written, then one row per
    record. *)
Definition export_csv (records : list row) (output_file : path) : io unit :=
  run_ write_text output_file [];
  let header := map CStr COLUMN_HEADERS in
  run_ write_text output_file (csv_text pf [header]);
  run _ <- io_fold (fun rows rec =>
                  run cells <- lift (mapM (dict_item rec) COLUMN_HEADERS);
                  run_ write_text output_file (csv_text pf (rows ++ [cells]));
                  ret (rows ++ [cells]))
             records [header];
  ret tt.

Definition export_markdown (records : list row)
  (generated_layouts : list (str * str)) (output_file : path) : io unit :=
  write_text output_file (markdown_text pf records generated_layouts).

(** ** The command *)

(** The first half of [main]: the output directory, the records and the
    CSV file. *)
Definition csv_step (json_file : path) (out corpus : option str)
  : io (list row * path * str) :=
  let (output_dir, output_base) :=
    match given out with
    | Some o => (Path pf o, name pf (Path pf o))
    | None =>
        (Path pf (stem pf json_file ++ "_layouts"), stem pf json_file)
    end in
  run_ mkdir_parents output_dir;
  run records <- parse_layouts json_file corpus;
  let csv_file := joinpath pf output_dir (output_base ++ ".csv") in
  run_ echo ("Generating CSV: " ++ csv_file);
  run_ export_csv records csv_file;
  ret (records, output_dir, output_base).

(** The second half: the diagrams and the report, when the text log is
    there. *)
Definition report_step (txt_file : path) (st : list row * path * str)
  : io unit :=
  let '(records, output_dir, output_base) := st in
  run found <- exists_ txt_file;
  if found then
    run_ echo ("Found " ++ txt_file
                 ++ ", generating SVG files and markdown table...");
    let svg_dir := joinpath pf output_dir "svgs" in
    run_ echo ("Generating SVG files in " ++ svg_dir ++ "...");
    run generated_layouts <- parse_diagrams txt_file svg_dir;
    let markdown_file := joinpath pf output_dir (output_base ++ ".md") in
    run_ echo ("Generating markdown table: " ++ markdown_file);
    export_markdown records generated_layouts markdown_file
  else ret tt.

Definition main (json_file : path) (out corpus : option str) : io unit :=
  let txt_file := with_suffix pf json_file ".txt" in
  run st <- csv_step json_file out corpus;
  report_step txt_file st.

End Cli.

(** A platform for examples: paths without directories, no results in any
    JSON text and empty renderings. *)
Definition sample_platform : platform :=
  Platform (fun s => s) (fun _ => lit ".") (fun _ => [lit "."])
    (fun p n => p ++ "/" ++ n) (fun p suffix => before "." p ++ suffix)
    (fun p => before "." p) (fun p => p) "parse_results.py"
    (fun _ => Ok []) (fun _ => []) (fun _ => []) (fun _ _ => []).

(** ** Further notions for the properties of the messages *)

(** The number of points of a text. *)
Definition count_points (s : str) : nat :=
  length (filter (fun c => if ascii_dec c "."%char then true else false) s).

(** A text of digits and points that is a number: at most one point and at
    least one digit. *)
Definition well_formed_number (s : str) : bool :=
  (count_points s <=? 1) && existsb is_digit s.

(** ** The metrics of a layout, read off the loops *)

(** The metric costs of a result in the order the two loops of
    [process_layout_metrics] visit them. *)
Definition all_metric_costs (raw : RawResult) : list MetricCost :=
  flat_map metric_costs (individual_results raw).

(** The last metric cost of the list with the given name. *)
Fixpoint last_metric (name : str) (l : list MetricCost) : option MetricCost :=
  match l with
  | [] => None
  | m :: t =>
      match last_metric name t with
      | Some m' => Some m'
      | None => if str_eqb name (core_name m) then Some m else None
      end
  end.

(** The message [process_layout_metrics] stores for a metric cost. *)
Definition stored_message (bigram_frequencies : dict float)
  (metric_cost : MetricCost) : result str :=
  if in_list (core_name metric_cost) [lit "Scissoring"; lit "Cluster Rolls"]
     && negb (is_nil bigram_frequencies)
  then do m <- add_frequencies (core_message metric_cost) bigram_frequencies;
       format_frequencies m
  else Ok (core_message metric_cost).

(** The text is one [float] rejects among those the pattern of the findings
    can capture. *)
Definition rejected_number (e : exn) : Prop :=
  exists p,
    e = ValueError p /\ forallb is_digit_or_dot p = true
    /\ well_formed_number p = false.

(** ** The sections of the text log, read off the loop *)

(** The groups of lines the loop of [parse_diagrams] makes from a current
    group [current] that is not empty and the lines still to read. *)
Fixpoint line_groups (current : list str) (lines : list str)
  : list (list str) :=
  match lines with
  | [] => [current]
  | line :: rest =>
      if startswith line "Layout (layer 1):"
      then current :: line_groups [line] rest
      else line_groups (current ++ [line]) rest
  end.

(** ** Worlds that only grow *)

(** Every file and directory of [w] is still there in [w'], and the output
    of [w'] is that of [w] with lines added. *)
Definition grows (w w' : world) : Prop :=
  (forall p, is_file w p = true -> is_file w' p = true)
  /\ (forall p, is_dir w p = true -> is_dir w' p = true)
  /\ exists lines, stdout w' = stdout w ++ lines.

(** The computation only adds to the world, whether it returns or raises. *)
Definition monotone {A} (c : io A) : Prop :=
  forall w r w', c w = (r, w') -> grows w w'.


(** An error [main] can end with: one of the operating system, one of the
    JSON reader, or a [ValueError]. *)
Definition main_error (pf : platform) (e : exn) : Prop :=
  os_error e
  \/ (exists text, json_load pf text = Raise e)
  \/ (exists p, e = ValueError p).

(* ================================================================== *)
(** * Properties of the string operations *)
(* ================================================================== *)

Unset Implicit Arguments.

Section StringFacts.

Lemma prefixb_spec (p s : str) :
  prefixb p s = true -> s = p ++ skipn (length p) s.
Proof.
  revert s. induction p as [|a p IH]; intros s H; simpl in *.
  - reflexivity.
  - destruct s as [|b s]; [discriminate|].
    destruct (ascii_dec a b) as [->|]; [|discriminate].
    simpl. f_equal. now apply IH.
Qed.

Lemma prefixb_app (p s : str) : prefixb p (p ++ s) = true.
Proof.
  induction p as [|a p IH]; simpl; [reflexivity|].
  destruct (ascii_dec a a); [assumption|congruence].
Qed.

Lemma prefixb_short (p s : str) : length s < length p -> prefixb p s = false.
Proof.
  revert s. induction p as [|a p IH]; intros s H; simpl in *; [lia|].
  destruct s as [|b s]; [reflexivity|].
  destruct (ascii_dec a b); [|reflexivity]. apply IH. simpl in H. lia.
Qed.

Lemma prefixb_app_long (p x y : str) :
  length p <= length x -> prefixb p (x ++ y) = prefixb p x.
Proof.
  revert x. induction p as [|a p IH]; intros x H; simpl in *; [reflexivity|].
  destruct x as [|b x]; simpl in *; [lia|].
  destruct (ascii_dec a b); [|reflexivity]. apply IH. lia.
Qed.

Lemma prefixb_skipn (p x y : str) :
  length x <= length p -> prefixb p (x ++ y) = true ->
  prefixb (skipn (length x) p) y = true.
Proof.
  revert p. induction x as [|b x IH]; intros p H Hp; simpl in *.
  - assumption.
  - destruct p as [|a p]; simpl in *; [lia|].
    destruct (ascii_dec a b); [|discriminate]. apply IH; [lia|assumption].
Qed.

Lemma partition_eq (sep s : str) :
  partition sep s =
  if prefixb sep s then Some ([], skipn (length sep) s)
  else match s with
       | [] => None
       | c :: t =>
           match partition sep t with
           | Some (a, b) => Some (c :: a, b)
           | None => None
           end
       end.
Proof. destruct s; reflexivity. Qed.

Lemma partition_spec (sep s a b : str) :
  partition sep s = Some (a, b) -> s = a ++ sep ++ b.
Proof.
  revert a b. induction s as [|c s IH]; intros a b H; rewrite partition_eq in H.
  - destruct (prefixb sep []) eqn:E; [|discriminate].
    injection H as <- <-. now apply prefixb_spec.
  - destruct (prefixb sep (c :: s)) eqn:E.
    + injection H as <- <-. now apply prefixb_spec.
    + destruct (partition sep s) as [[a' b']|]; [|discriminate].
      injection H as <- <-. simpl. f_equal. now apply IH.
Qed.

Lemma partition_length (sep s a b : str) :
  partition sep s = Some (a, b) ->
  length s = length a + length sep + length b.
Proof.
  intros H. apply partition_spec in H. subst s.
  rewrite !length_app. lia.
Qed.

(** The first occurrence found in [a] is the first one in [a ++ c]. *)
Lemma partition_app_l (sep a a1 a2 c : str) :
  partition sep a = Some (a1, a2) ->
  partition sep (a ++ c) = Some (a1, a2 ++ c).
Proof.
  revert a1 a2. induction a as [|x a IH]; intros a1 a2 H;
    rewrite partition_eq in H.
  - destruct (prefixb sep []) eqn:E; [|discriminate].
    injection H as <- <-. destruct sep; [|discriminate].
    destruct c; reflexivity.
  - rewrite partition_eq. simpl app.
    destruct (prefixb sep (x :: a)) eqn:E.
    + injection H as <- <-.
      assert (L : length sep <= length (x :: a)).
      { destruct (Nat.le_gt_cases (length sep) (length (x :: a))); [assumption|].
        rewrite prefixb_short in E; [discriminate|assumption]. }
      change (x :: a ++ c) with ((x :: a) ++ c).
      rewrite prefixb_app_long, E by assumption.
      now rewrite skipn_app, (proj2 (Nat.sub_0_le _ _) L).
    + change (x :: a ++ c) with ((x :: a) ++ c).
      destruct (partition sep a) as [[a' b']|] eqn:P; [|discriminate].
      injection H as <- <-.
      assert (L : length sep <= length (x :: a)).
      { apply partition_length in P. simpl. lia. }
      rewrite prefixb_app_long, E by assumption.
      cbn [app]. now rewrite (IH _ _ eq_refl).
Qed.

Lemma contains_false (sub s : str) :
  contains sub s = false <-> partition sub s = None.
Proof.
  unfold contains. destruct (partition sub s); split; congruence.
Qed.

Lemma contains_true (sub s : str) :
  contains sub s = true <-> exists a b, partition sub s = Some (a, b).
Proof.
  unfold contains. destruct (partition sub s) as [[a b]|]; split;
    try congruence; eauto. intros (a' & b' & H). discriminate.
Qed.

Lemma split_first (sep s : str) : index (split sep s) 0 = Ok (before sep s).
Proof.
  unfold split, before. simpl. destruct (partition sep s) as [[a b]|];
    reflexivity.
Qed.

Lemma split_second (sep s a b : str) :
  sep <> [] -> partition sep s = Some (a, b) ->
  index (split sep s) 1 = Ok (before sep b).
Proof.
  intros Hs H. unfold split. simpl. rewrite H.
  pose proof (partition_length _ _ _ _ H) as L.
  destruct sep as [|c sep]; [congruence|]. simpl in L.
  destruct (length s) as [|n] eqn:E; [lia|].
  unfold before. simpl. destruct (partition (c :: sep) b) as [[a' b']|];
    reflexivity.
Qed.

Lemma split_none (sep s : str) : partition sep s = None -> split sep s = [s].
Proof. intros H. unfold split. simpl. now rewrite H. Qed.

(** ** [replace] *)

Lemma replace_fuel_indep (old new : str) (n m : nat) (s : str) :
  old <> [] -> length s < n -> length s < m ->
  replace_fuel n old new s = replace_fuel m old new s.
Proof.
  intros Ho. revert m s. induction n as [|n IH]; intros m s Hn Hm; [lia|].
  destruct m as [|m]; [lia|]. simpl.
  destruct (partition old s) as [[a b]|] eqn:P; [|reflexivity].
  pose proof (partition_length _ _ _ _ P) as L.
  assert (0 < length old) by (destruct old; [congruence|simpl; lia]).
  do 2 f_equal. apply IH; lia.
Qed.

Lemma replace_unfold (s old new : str) :
  old <> [] ->
  replace s old new =
  match partition old s with
  | None => s
  | Some (a, b) => a ++ new ++ replace b old new
  end.
Proof.
  intros Ho. unfold replace at 1. cbn [replace_fuel].
  destruct (partition old s) as [[a b]|] eqn:P; [|reflexivity].
  pose proof (partition_length _ _ _ _ P) as L.
  assert (0 < length old) by (destruct old; [congruence|simpl; lia]).
  do 2 f_equal. unfold replace. apply replace_fuel_indep; [assumption|lia|lia].
Qed.

Lemma border_free_no_overlap (p x y : str) :
  border_free p = true -> x <> [] -> prefixb p x = false ->
  prefixb p (x ++ p ++ y) = false.
Proof.
  intros Hb Hx Hp. destruct (prefixb p (x ++ p ++ y)) eqn:E; [|reflexivity].
  exfalso.
  assert (L : length x < length p).
  { destruct (Nat.le_gt_cases (length p) (length x)) as [H|H]; [|assumption].
    rewrite prefixb_app_long in E by assumption. congruence. }
  apply prefixb_skipn in E; [|lia].
  rewrite prefixb_app_long in E by (rewrite length_skipn; lia).
  unfold border_free in Hb. rewrite forallb_forall in Hb.
  specialize (Hb (length x)). rewrite E in Hb.
  assert (In (length x) (seq 1 (length p - 1))).
  { apply in_seq. destruct x; [congruence|simpl in *; lia]. }
  specialize (Hb H). discriminate.
Qed.

Lemma partition_border_free (p a b : str) :
  border_free p = true -> partition p a = None ->
  partition p (a ++ p ++ b) = Some (a, b).
Proof.
  intros Hb. induction a as [|c a IH]; intros H; rewrite partition_eq.
  - simpl app. rewrite prefixb_app.
    now rewrite skipn_app, skipn_all, Nat.sub_diag.
  - rewrite partition_eq in H.
    destruct (prefixb p (c :: a)) eqn:E; [discriminate|].
    destruct (partition p a) as [[a' b']|] eqn:P; [discriminate|].
    rewrite (border_free_no_overlap p (c :: a) b Hb) by (congruence || assumption).
    cbn [app]. now rewrite (IH eq_refl).
Qed.

(** Removing a border-free [p]: an occurrence between [a] and [b] goes, and
    what is removed from [a] and from [b] does not depend on it. *)
Lemma replace_border_free (p a b : str) :
  p <> [] -> border_free p = true ->
  replace (a ++ p ++ b) p [] = replace a p [] ++ replace b p [].
Proof.
  intros Hp Hb. remember (length a) as n eqn:Hn.
  revert a Hn. induction n as [n IH] using lt_wf_ind. intros a Hn.
  rewrite (replace_unfold (a ++ p ++ b)), (replace_unfold a) by assumption.
  destruct (partition p a) as [[a1 a2]|] eqn:P.
  - rewrite (partition_app_l _ _ _ _ _ P). simpl.
    pose proof (partition_length _ _ _ _ P) as L.
    assert (0 < length p) by (destruct p; [congruence|simpl; lia]).
    rewrite (IH (length a2)) by (lia || reflexivity).
    now rewrite app_assoc.
  - rewrite (partition_border_free _ _ _ Hb P). reflexivity.
Qed.

End StringFacts.

Section CrossFacts.

Lemma mem_char_In (s : str) (c : ascii) : mem_char s c = true <-> In c s.
Proof.
  unfold mem_char. rewrite existsb_exists. split.
  - intros (d & Hd & E). destruct (ascii_dec c d); [now subst|discriminate].
  - intros H. exists c. split; [assumption|].
    destruct (ascii_dec c c); [reflexivity|congruence].
Qed.

Lemma prefixb_head (p s : str) (c d : ascii) :
  prefixb (c :: p) (d :: s) = true -> c = d.
Proof. cbn [prefixb]. destruct (ascii_dec c d); [auto|discriminate]. Qed.

(** No occurrence of [p] starts in [q] when [q] lacks the first character
    of [p]. *)
Lemma partition_skip (p q b : str) :
  match p with c :: _ => mem_char q c = false | [] => False end ->
  partition p (q ++ b)
  = match partition p b with
    | Some (b1, b2) => Some (q ++ b1, b2)
    | None => None
    end.
Proof.
  destruct p as [|c p]; [intros []|]. intros H.
  induction q as [|d q IH].
  - cbn [app]. now destruct (partition (c :: p) b) as [[b1 b2]|].
  - assert (Hd : c <> d).
    { intros ->. unfold mem_char in H. cbn [existsb] in H.
      destruct (ascii_dec d d); [discriminate|congruence]. }
    assert (Hq : mem_char q c = false).
    { unfold mem_char in *. cbn [existsb] in H.
      now apply orb_false_iff in H as [_ H]. }
    rewrite partition_eq. cbn [app prefixb].
    destruct (ascii_dec c d); [congruence|].
    rewrite (IH Hq). now destruct (partition (c :: p) b) as [[b1 b2]|].
Qed.

(** No occurrence of [p] starts in [a] and runs into [q] when [p] lacks
    the first character of [q]. *)
Lemma partition_before (p a q b : str) :
  match q with d :: _ => mem_char p d = false | [] => False end ->
  partition p a = None ->
  partition p (a ++ q ++ b)
  = match partition p (q ++ b) with
    | Some (b1, b2) => Some (a ++ b1, b2)
    | None => None
    end.
Proof.
  destruct q as [|d q]; [intros []|]. intros H. cbn [app].
  induction a as [|c a IH]; intros P.
  - cbn [app]. now destruct (partition p (d :: q ++ b)) as [[b1 b2]|].
  - rewrite partition_eq in P.
    destruct (prefixb p (c :: a)) eqn:E; [discriminate|].
    destruct (partition p a) as [[a1 a2]|] eqn:Pa; [discriminate|].
    rewrite partition_eq.
    assert (F : prefixb p ((c :: a) ++ d :: q ++ b) = false).
    { destruct (prefixb p ((c :: a) ++ d :: q ++ b)) eqn:G; [|reflexivity].
      exfalso.
      destruct (Nat.le_gt_cases (length p) (length (c :: a))) as [L|L].
      - rewrite prefixb_app_long in G by assumption. congruence.
      - apply prefixb_skipn in G; [|lia].
        destruct (skipn (length (c :: a)) p) as [|x s] eqn:S.
        + apply (f_equal (@length ascii)) in S. rewrite length_skipn in S.
          simpl in S, L. lia.
        + apply prefixb_head in G. subst x.
          assert (In d p).
          { rewrite <- (firstn_skipn (length (c :: a)) p), S.
            apply in_or_app. right. now left. }
          apply mem_char_In in H0. congruence. }
    rewrite F. cbn [app]. rewrite (IH eq_refl).
    now destruct (partition p (d :: q ++ b)) as [[b1 b2]|].
Qed.

(** Removing [p] leaves an occurrence of [q] where it is when the two are
    apart. *)
Lemma replace_apart (p q a b : str) :
  apart p q = true ->
  replace (a ++ q ++ b) p [] = replace a p [] ++ q ++ replace b p [].
Proof.
  intros H. unfold apart in H.
  destruct p as [|c p]; [discriminate|]. destruct q as [|d q]; [discriminate|].
  apply andb_true_iff in H as [Hc Hd].
  apply negb_true_iff in Hc, Hd.
  remember (length a) as n eqn:Hn.
  revert a Hn. induction n as [n IH] using lt_wf_ind. intros a Hn.
  rewrite (replace_unfold (a ++ (d :: q) ++ b)), (replace_unfold a)
    by discriminate.
  destruct (partition (c :: p) a) as [[a1 a2]|] eqn:P.
  - rewrite (partition_app_l _ _ _ _ _ P).
    pose proof (partition_length _ _ _ _ P) as L. cbn [length] in L.
    assert (Lt : length a2 < n) by lia.
    rewrite (IH (length a2) Lt a2 eq_refl).
    cbn [app]. now rewrite <- !app_assoc.
  - rewrite (partition_before (c :: p) a (d :: q) b Hd P).
    rewrite (partition_skip (c :: p) (d :: q) b Hc).
    rewrite (replace_unfold b) by discriminate.
    destruct (partition (c :: p) b) as [[b1 b2]|]; [|reflexivity].
    cbn [app]. repeat (rewrite <- app_assoc; cbn [app]). reflexivity.
Qed.

End CrossFacts.


(* ================================================================== *)
(** * Properties of [float] on decimal texts *)
(* ================================================================== *)

Section FloatFacts.

Lemma digit_not_space (c : ascii) :
  is_digit_or_dot c = true -> is_float_space c = false.
Proof.
  destruct c as [[] [] [] [] [] [] [] []]; vm_compute; congruence.
Qed.

Lemma digit_is_digit_or_dot (c : ascii) : is_digit c = true -> is_digit_or_dot c = true.
Proof. unfold is_digit_or_dot. now intros ->. Qed.

Lemma digit_facts (c : ascii) :
  is_digit c = true ->
  c <> "-"%char /\ c <> "+"%char /\ c <> "_"%char /\ c <> "."%char
  /\ lower_char c = c /\ c <> "i"%char /\ c <> "n"%char.
Proof.
  destruct c as [[] [] [] [] [] [] [] []]; vm_compute; intros H;
    try discriminate H; repeat split; congruence.
Qed.

Lemma lstrip_by_id (f : ascii -> bool) (s : str) :
  match s with c :: _ => f c = false | [] => True end -> lstrip_by f s = s.
Proof. destruct s as [|c t]; simpl; [reflexivity|]. now intros ->. Qed.

Lemma strip_by_id (f : ascii -> bool) (s : str) :
  forallb (fun c => negb (f c)) s = true -> strip_by f s = s.
Proof.
  intros H. unfold strip_by, rstrip_by.
  rewrite (lstrip_by_id f s).
  - rewrite lstrip_by_id; [apply rev_involutive|].
    destruct (rev s) as [|c t] eqn:E; [exact I|].
    rewrite forallb_forall in H. specialize (H c).
    apply negb_true_iff, H, in_rev. rewrite E. now left.
  - destruct s as [|c t]; [exact I|]. simpl in H.
    apply andb_true_iff in H as [H _]. now apply negb_true_iff.
Qed.

Lemma digitpart_digits (i rest : str) :
  forallb is_digit i = true ->
  match rest with
  | c :: _ => is_digit c = false /\ c <> "_"%char
  | [] => True
  end ->
  digitpart (i ++ rest) = (i, rest).
Proof.
  intros Hi Hr. induction i as [|c i IH].
  - cbn [app]. destruct rest as [|c t]; [reflexivity|].
    destruct Hr as [Hd _]. cbn [digitpart]. now rewrite Hd.
  - simpl in Hi. apply andb_true_iff in Hi as [Hc Hi].
    specialize (IH Hi). cbn [app]. cbn [digitpart]. fold digitpart. rewrite Hc, IH.
    destruct i as [|d ds]; [|reflexivity].
    simpl. destruct rest as [|u t]; [reflexivity|].
    destruct Hr as [_ Hu]. destruct (ascii_dec u "_"); [congruence|reflexivity].
Qed.

Lemma is_digits_inv (s : str) :
  is_digits s = true ->
  exists c t, s = c :: t /\ is_digit c = true /\ forallb is_digit t = true.
Proof.
  unfold is_digits. destruct s as [|c t]; [discriminate|]. simpl.
  intros H. apply andb_true_iff in H as [Hc Ht]. eauto.
Qed.

Lemma is_digits_all (s : str) : is_digits s = true -> forallb is_digit s = true.
Proof. unfold is_digits. intros H. now apply andb_true_iff in H as [_ H]. Qed.

Lemma read_sign_digit (c : ascii) (t : str) :
  is_digit c = true -> read_sign (c :: t) = (false, c :: t).
Proof.
  intros H. destruct (digit_facts c H) as (Hm & Hp & _). simpl.
  destruct (ascii_dec c "-"); [congruence|].
  destruct (ascii_dec c "+"); [congruence|reflexivity].
Qed.

Lemma not_special_digit (c : ascii) (t : str) :
  is_digit c = true ->
  str_eqb (lower (c :: t)) "inf" || str_eqb (lower (c :: t)) "infinity" = false
  /\ str_eqb (lower (c :: t)) "nan" = false.
Proof.
  intros H. destruct (digit_facts c H) as (_ & _ & _ & _ & Hl & Hi & Hn).
  simpl. rewrite Hl. split; [apply orb_false_iff; split|];
    apply str_eqb_neq; intros E; injection E; intros; congruence.
Qed.

(** [float] reads digits, a point and further digits as the nearest
    binary64 number. *)
Lemma float_of_str_point (i f : str) :
  is_digits i = true -> forallb is_digit f = true ->
  float_of_str (i ++ "." ++ f) = Ok (decimal_value i f).
Proof.
  intros Hi Hf. pose proof (is_digits_all _ Hi) as Hia.
  destruct (is_digits_inv _ Hi) as (c & t & -> & Hc & Ht).
  unfold float_of_str. rewrite strip_by_id.
  2:{ rewrite forallb_forall. intros x Hx. apply negb_true_iff, digit_not_space.
      apply in_app_or in Hx as [Hx|Hx].
      - apply digit_is_digit_or_dot. rewrite forallb_forall in Hia. now apply Hia.
      - simpl in Hx. destruct Hx as [<-|Hx]; [reflexivity|].
        apply digit_is_digit_or_dot. rewrite forallb_forall in Hf. now apply Hf. }
  cbn [app]. rewrite (read_sign_digit c _ Hc).
  destruct (not_special_digit c (t ++ "." ++ f) Hc) as [-> ->].
  unfold read_number.
  change (c :: t ++ "." ++ f) with ((c :: t) ++ "." ++ f).
  rewrite (digitpart_digits (c :: t) ("." ++ f) Hia) by (split; [reflexivity|discriminate]).
  cbn [lit String.list_ascii_of_string app].
  destruct (ascii_dec "." "."); [|congruence].
  replace f with (f ++ []) at 1 by apply app_nil_r.
  rewrite (digitpart_digits f [] Hf I).
  cbn [length Nat.add Nat.eqb negb read_exponent]. unfold decimal_value.
  now rewrite Z.sub_0_l.
Qed.

(** [float] reads a string of digits as the nearest binary64 number. *)
Lemma float_of_str_digits (i : str) :
  is_digits i = true -> float_of_str i = Ok (decimal_value i []).
Proof.
  intros Hi. pose proof (is_digits_all _ Hi) as Hia.
  destruct (is_digits_inv _ Hi) as (c & t & -> & Hc & Ht).
  unfold float_of_str. rewrite strip_by_id.
  2:{ rewrite forallb_forall. intros x Hx. apply negb_true_iff, digit_not_space.
      apply digit_is_digit_or_dot. rewrite forallb_forall in Hia. now apply Hia. }
  rewrite (read_sign_digit c _ Hc).
  destruct (not_special_digit c t Hc) as [-> ->].
  unfold read_number.
  replace (c :: t) with ((c :: t) ++ []) at 1 by apply app_nil_r.
  rewrite (digitpart_digits (c :: t) [] Hia I).
  cbn [length Nat.add Nat.eqb negb read_exponent]. unfold decimal_value.
  reflexivity.
Qed.

End FloatFacts.

(* ================================================================== *)
(** * Properties of the matcher *)
(* ================================================================== *)

Section RegexFacts.

(** The greedy repetition takes the whole run when what follows succeeds
    after it. *)
Lemma star_greedy {X} (f : ascii -> bool) (k : str -> option X)
  (a b : str) (x : X) :
  forallb f a = true ->
  match b with c :: _ => f c = false | [] => True end ->
  k b = Some x ->
  star f k (a ++ b) = Some x.
Proof.
  intros Ha Hb Hk. induction a as [|c a IH]; cbn [app].
  - destruct b as [|c t]; cbn [star]; [assumption|]. now rewrite Hb.
  - simpl in Ha. apply andb_true_iff in Ha as [Hc Ha].
    cbn [star]. now rewrite Hc, (IH Ha).
Qed.

Lemma star_inv {X} (f : ascii -> bool) (k : str -> option X) (s : str) (x : X) :
  star f k s = Some x ->
  exists a b, s = a ++ b /\ forallb f a = true /\ k b = Some x.
Proof.
  induction s as [|c s IH]; cbn [star]; intros H.
  - now exists [], [].
  - destruct (f c) eqn:Hc.
    + destruct (star f k s) as [y|] eqn:E.
      * injection H as ->. destruct (IH eq_refl) as (a & b & -> & Ha & Hk).
        exists (c :: a), b. simpl. now rewrite Hc, Ha.
      * now exists [], (c :: s).
    + now exists [], (c :: s).
Qed.

Lemma match_lits (l : str) (r : regex) (o caps : list str) (s : str) :
  match_here (lits l ++ r) o caps s =
  if prefixb l s then match_here r o caps (skipn (length l) s) else None.
Proof.
  revert s. induction l as [|a l IH]; intros s; [reflexivity|].
  cbn [lits map app match_here prefixb]. destruct s as [|b s]; [reflexivity|].
  destruct (ascii_dec a b); [|reflexivity]. apply IH.
Qed.

Lemma firstn_diff (m rest : str) :
  firstn (length (m ++ rest) - length rest) (m ++ rest) = m.
Proof.
  rewrite length_app, Nat.add_sub. rewrite firstn_app, Nat.sub_diag.
  rewrite firstn_all. simpl. apply app_nil_r.
Qed.

(** ** Scanning *)

Lemma re_scan_skip (r : regex) (m rest : str) :
  re_scan r (length m) (m ++ rest) = re_scan r 0 rest.
Proof.
  induction m as [|c m IH]; [|exact IH].
  destruct rest; reflexivity.
Qed.

Lemma re_scan_match (r : regex) (m rest : str) (caps : list str) :
  m <> [] -> match_here r [] [] (m ++ rest) = Some (caps, rest) ->
  re_scan r 0 (m ++ rest) = Match caps :: re_scan r 0 rest.
Proof.
  intros Hm H. destruct m as [|c m]; [congruence|].
  change ((c :: m) ++ rest) with (c :: m ++ rest) in *.
  cbn [re_scan]. rewrite H.
  replace (length (c :: m ++ rest) - length rest) with (S (length m)).
  - now rewrite re_scan_skip.
  - change (length (c :: m ++ rest)) with (S (length (m ++ rest))).
    rewrite length_app. lia.
Qed.

Lemma re_scan_text (r : regex) (c : ascii) (t : str) :
  match_here r [] [] (c :: t) = None ->
  re_scan r 0 (c :: t) = Text c :: re_scan r 0 t.
Proof. intros H. cbn [re_scan]. now rewrite H. Qed.

Lemma re_sub_nil (r : regex) (f : list str -> result str) :
  re_sub r f [] = Ok [].
Proof. reflexivity. Qed.


(** A character at which nothing matches is copied. *)
Lemma re_sub_text (r : regex) (f : list str -> result str)
  (c : ascii) (t : str) :
  match_here r [] [] (c :: t) = None ->
  re_sub r f (c :: t) = do x <- re_sub r f t; Ok (c :: x).
Proof.
  intros H. unfold re_sub. rewrite (re_scan_text r c t H).
  cbn [mapM bind].
  destruct (mapM _ (re_scan r 0 t)) as [ys|e]; reflexivity.
Qed.

(** A text with no match at any position is left as it is. *)
Lemma re_sub_no_match (r : regex) (f : list str -> result str) (s : str) :
  (forall a b, s = a ++ b -> b <> [] -> match_here r [] [] b = None) ->
  re_sub r f s = Ok s.
Proof.
  induction s as [|c s IH]; intros H; [reflexivity|].
  rewrite re_sub_text by (apply (H [] (c :: s)); [reflexivity|discriminate]).
  rewrite IH; [reflexivity|].
  intros a b -> Hb. apply (H (c :: a) b); [reflexivity|assumption].
Qed.

(** ** Decimal numbers: digits, a point, digits *)


Lemma match_decimal_inv {r : regex} {o caps : list str}
  (s : str) (x : list str * str) :
  match_here (decimal r) o caps s = Some x ->
  exists i f rest,
    is_digits i = true /\ is_digits f = true
    /\ s = i ++ "." ++ f ++ rest /\ match_here r o caps rest = Some x.
Proof.
  unfold decimal. cbn [app match_here]. intros H.
  destruct s as [|c s]; [discriminate|].
  destruct (is_digit c) eqn:Hc; [|discriminate].
  apply star_inv in H as (t & b & -> & Ht & H).
  cbn [match_here] in H. destruct b as [|p b]; [discriminate|].
  destruct (ascii_dec "." p) as [<-|]; [|discriminate].
  destruct b as [|c' b]; [discriminate|].
  destruct (is_digit c') eqn:Hc'; [|discriminate].
  apply star_inv in H as (t' & rest & -> & Ht' & H).
  exists (c :: t), (c' :: t'), rest. repeat split.
  - unfold is_digits. simpl. now rewrite Hc, Ht.
  - unfold is_digits. simpl. now rewrite Hc', Ht'.
  - assumption.
Qed.

End RegexFacts.

(* ================================================================== *)
(** * Rounding of the numbers of a message *)
(* ================================================================== *)

Section Rounding.

Lemma mapM_total {A B} (f : A -> result B) (l : list A) :
  (forall a, In a l -> exists b, f a = Ok b) -> exists bs, mapM f l = Ok bs.
Proof.
  induction l as [|a l IH]; intros H; [now exists []|].
  destruct (H a (or_introl eq_refl)) as [b Hb].
  destruct IH as [bs Hbs]; [intros; apply H; now right|].
  exists (b :: bs). cbn [mapM]. now rewrite Hb, Hbs.
Qed.

(** Every match the scan reports is a match of the pattern somewhere. *)
Lemma re_scan_pieces (r : regex) (s : str) (k : nat) (g : list str) :
  In (Match g) (re_scan r k s) ->
  exists b rest, match_here r [] [] b = Some (g, rest).
Proof.
  revert k. induction s as [|c s IH]; intros k H; [destruct H|].
  cbn [re_scan] in H. destruct k as [|k]; [|now apply (IH k)].
  destruct (match_here r [] [] (c :: s)) as [[caps rest]|] eqn:E.
  - destruct (length (c :: s) - length rest).
    + destruct H as [H|[H|H]]; [injection H as <-; eauto|discriminate|eauto].
    + destruct H as [H|H]; [injection H as <-; eauto|eauto].
  - destruct H as [H|H]; [discriminate|eauto].
Qed.

Lemma re_sub_total (r : regex) (f : list str -> result str) (s : str) :
  (forall b caps rest,
     match_here r [] [] b = Some (caps, rest) -> exists y, f caps = Ok y) ->
  exists x, re_sub r f s = Ok x.
Proof.
  intros H. unfold re_sub.
  destruct (mapM_total
              (fun p => match p with Match g => f g | Text c => Ok [c] end)
              (re_scan r 0 s)) as [bs Hbs].
  - intros [c|g] Hin; [eauto|].
    destruct (re_scan_pieces r s 0 g Hin) as (b & rest & Hm). eauto.
  - rewrite Hbs. cbn [bind]. eauto.
Qed.

Lemma firstn_match (m rest : str) :
  firstn (length (m ++ rest) - length rest) (m ++ rest) = m.
Proof. apply firstn_diff. Qed.

(** ** The pattern of the disbalance metrics *)


Lemma match_bare_inv (s : str) (caps : list str) (rest : str) :
  match_here pat_bare [] [] s = Some (caps, rest) ->
  exists i f, is_digits i = true /\ is_digits f = true
              /\ caps = [i ++ "." ++ f] /\ s = (i ++ "." ++ f) ++ rest.
Proof.
  change pat_bare with (GOpen :: decimal [GClose; NotAhead "%)"]).
  cbn [match_here]. intros H.
  apply match_decimal_inv in H as (i & f & r & Hi & Hf & Hs & H).
  cbn [match_here] in H. destruct (prefixb "%)" r); [discriminate|].
  injection H as <- <-. exists i, f.
  assert (E : s = (i ++ "." ++ f) ++ r) by now rewrite Hs, <- !app_assoc.
  repeat split; try assumption.
  cbn [app]. now rewrite E, firstn_match.
Qed.

(** ** The pattern of the other metrics *)


Lemma match_percent_comma_inv (s : str) (caps : list str) (rest : str) :
  match_here pat_percent_comma [] [] s = Some (caps, rest) ->
  exists i f, is_digits i = true /\ is_digits f = true
              /\ caps = [i ++ "." ++ f]
              /\ s = (i ++ "." ++ f ++ "%,") ++ rest.
Proof.
  change pat_percent_comma with (GOpen :: decimal (GClose :: lits "%,")).
  cbn [match_here]. intros H.
  apply match_decimal_inv in H as (i & f & r & Hi & Hf & Hs & H).
  cbn [match_here lits map lit String.list_ascii_of_string app] in H.
  destruct r as [|p r]; [discriminate|].
  destruct (ascii_dec "%" p) as [<-|]; [|discriminate].
  destruct r as [|q r]; [discriminate|].
  destruct (ascii_dec "," q) as [<-|]; [|discriminate].
  injection H as <- <-. exists i, f.
  assert (E : s = (i ++ "." ++ f) ++ "%," ++ r)
    by now rewrite Hs, <- !app_assoc.
  repeat split; try assumption.
  - now rewrite E, firstn_match.
  - now rewrite Hs, <- !app_assoc.
Qed.

Lemma round_group_decimal (decimals : nat) (suffix i f : str) :
  is_digits i = true -> is_digits f = true ->
  round_group decimals suffix [i ++ "." ++ f]
  = Ok (fmt_f decimals (decimal_value i f) ++ suffix).
Proof.
  intros Hi Hf. unfold round_group, group. cbn [nth Nat.sub].
  now rewrite (float_of_str_point i f Hi (is_digits_all f Hf)).
Qed.

(** The rounding step never raises. *)
Lemma round_numbers_total (metric_name message : str) :
  exists r, round_numbers metric_name message = Ok r.
Proof.
  unfold round_numbers. destruct (in_list metric_name disbalance_metrics).
  - apply re_sub_total. intros b caps rest H.
    apply match_bare_inv in H as (i & f & Hi & Hf & -> & _).
    rewrite round_group_decimal by assumption. eauto.
  - apply re_sub_total. intros b caps rest H.
    apply match_percent_comma_inv in H as (i & f & Hi & Hf & -> & _).
    rewrite round_group_decimal by assumption. eauto.
Qed.

Lemma contains_tail (sub : str) (c : ascii) (t : str) :
  contains sub (c :: t) = false -> contains sub t = false.
Proof.
  unfold contains. rewrite (partition_eq sub (c :: t)).
  destruct (prefixb sub (c :: t)); [discriminate|].
  destruct (partition sub t) as [[a b]|]; [discriminate|reflexivity].
Qed.

Lemma contains_app (sub a b : str) : contains sub (a ++ sub ++ b) = true.
Proof.
  unfold contains. induction a as [|c a IH]; rewrite partition_eq.
  - cbn [app]. now rewrite prefixb_app.
  - destruct (prefixb sub ((c :: a) ++ sub ++ b)); [reflexivity|].
    cbn [app]. destruct (partition sub (a ++ sub ++ b)) as [[x y]|];
      [reflexivity|discriminate].
Qed.

Lemma contains_suffix (sub a b : str) :
  contains sub (a ++ b) = false -> contains sub b = false.
Proof.
  induction a as [|c a IH]; [trivial|].
  intros H. apply IH. now apply contains_tail in H.
Qed.

End Rounding.

(** A number followed by "%)" is not left alone when it has three or more
    decimals: the pattern matches it without its last digit, which is then
    followed by a digit. *)
Lemma round_numbers_backtracks :
  round_numbers "Finger Balance" "12.345%)" = Ok (lit "12.35%)")
  /\ round_numbers "Finger Balance" "12.3%)" = Ok (lit "12.3%)").
Proof. vm_compute. split; reflexivity. Qed.



(* ================================================================== *)
(** * Formatting of frequencies *)
(* ================================================================== *)

Section Frequencies.

Lemma lstrip_by_app_stop (f : ascii -> bool) (x : str) (c : ascii) (y : str) :
  f c = false -> lstrip_by f (x ++ c :: y) = lstrip_by f x ++ c :: y.
Proof.
  intros Hc. induction x as [|d x IH]; cbn [app lstrip_by].
  - now rewrite Hc.
  - destruct (f d); [exact IH|reflexivity].
Qed.

(** Stripping on the right stops at a character that is not stripped. *)
Lemma rstrip_by_app_stop (f : ascii -> bool) (a : str) (c : ascii) (b : str) :
  f c = false -> rstrip_by f (a ++ c :: b) = a ++ c :: rstrip_by f b.
Proof.
  intros Hc. unfold rstrip_by.
  rewrite rev_app_distr. cbn [rev]. rewrite <- app_assoc. cbn [app].
  rewrite lstrip_by_app_stop by assumption.
  rewrite rev_app_distr. cbn [rev]. rewrite rev_involutive, <- app_assoc.
  reflexivity.
Qed.

Lemma rstrip_by_keep (f : ascii -> bool) (a : str) (c : ascii) :
  f c = false -> rstrip_by f (a ++ [c]) = a ++ [c].
Proof. intros Hc. now rewrite rstrip_by_app_stop. Qed.

Lemma rstrip_by_drop (f : ascii -> bool) (a : str) (c : ascii) :
  f c = true -> rstrip_by f (a ++ [c]) = rstrip_by f a.
Proof.
  intros Hc. unfold rstrip_by. rewrite rev_app_distr. cbn [rev app lstrip_by].
  now rewrite Hc.
Qed.

Lemma rstrip_by_nil (f : ascii -> bool) : rstrip_by f [] = [].
Proof. reflexivity. Qed.

(** What is left of a string after stripping is empty or ends with a
    character that is not stripped. *)
Lemma rstrip_by_last (f : ascii -> bool) (s : str) :
  rstrip_by f s = []
  \/ exists a c, rstrip_by f s = a ++ [c] /\ f c = false.
Proof.
  induction s as [|c s IH] using rev_ind; [now left|].
  destruct (f c) eqn:Hc.
  - now rewrite rstrip_by_drop.
  - right. exists s, c. now rewrite rstrip_by_keep.
Qed.


(** ** Digits *)









(** ** Three places, zeros stripped *)


End Frequencies.

Section FrequencyPattern.

Lemma pat_freq_eq : pat_freq = lits "freq: " ++ freq_tail.
Proof. reflexivity. Qed.

Lemma close_group (s m rest : str) :
  s = m ++ rest ->
  match_here [GClose] [s] [] rest = Some ([m], rest).
Proof. intros ->. cbn [match_here app]. now rewrite firstn_diff. Qed.

Lemma closed_group (s m rest : str) :
  s = m ++ rest -> [] ++ [firstn (length s - length rest) s] = [m].
Proof. intros ->. cbn [app]. now rewrite firstn_diff. Qed.



Lemma match_freq_tail_inv (s : str) (caps : list str) (rest : str) :
  match_here freq_tail [] [] s = Some (caps, rest) ->
  exists g x, caps = [g] /\ float_of_str g = Ok x.
Proof.
  unfold freq_tail. cbn [match_here]. intros H.
  destruct s as [|c s]; [discriminate|].
  destruct (is_digit c) eqn:Hc; [|discriminate].
  apply star_inv in H as (t & b & -> & Ht & H).
  assert (Hi : is_digits (c :: t) = true)
    by (unfold is_digits; simpl; now rewrite Hc, Ht).
  assert (Int : forall f r,
            forallb is_digit f = true ->
            match_here [GClose] [c :: t ++ f ++ r] [] r = Some (caps, rest) ->
            exists g x, caps = [g] /\ float_of_str g = Ok x).
  { intros f r Hf Hm.
    rewrite (close_group _ ((c :: t) ++ f) r) in Hm
      by (cbn [app]; now rewrite <- app_assoc).
    injection Hm as <- <-. eexists _, _. split; [reflexivity|].
    apply (float_of_str_digits ((c :: t) ++ f)). unfold is_digits. simpl.
    now rewrite Hc, forallb_app, Ht, Hf. }
  assert (Tail : forall b0,
            match_here [Star is_digit; GClose] [c :: t ++ b0] [] b0
            = Some (caps, rest) ->
            exists g x, caps = [g] /\ float_of_str g = Ok x).
  { intros b0 Hm. cbn [match_here] in Hm.
    apply star_inv in Hm as (f & r & -> & Hf & Hm). now apply (Int f r). }
  cbn [match_here] in H. destruct b as [|p b]; [now apply (Tail [])|].
  destruct (ascii_dec "." p) as [<-|]; [|now apply (Tail (p :: b))].
  destruct (star is_digit _ b) as [y|] eqn:E.
  - injection H as ->. apply star_inv in E as (f & r & -> & Hf & Hm).
    rewrite (closed_group _ ((c :: t) ++ "." ++ f) r) in Hm
      by (cbn [lit String.list_ascii_of_string app]; now rewrite <- app_assoc).
    injection Hm as <- <-. eexists _, _. split; [reflexivity|].
    now apply (float_of_str_point (c :: t) f).
  - now apply (Tail ("."%char :: b)).
Qed.


Lemma format_freq_value (g : str) (x : float) :
  float_of_str g = Ok x ->
  format_freq [g] = Ok ("freq: " ++ three_places x).
Proof. intros H. unfold format_freq, group. cbn [nth Nat.sub]. now rewrite H. Qed.


(** [format_frequencies] never raises. *)
Lemma format_frequencies_total (message : str) :
  exists r, format_frequencies message = Ok r.
Proof.
  apply re_sub_total. intros b caps rest H.
  rewrite pat_freq_eq, match_lits in H.
  destruct (prefixb "freq: " b); [|discriminate].
  apply match_freq_tail_inv in H as (g & x & -> & Hx).
  rewrite (format_freq_value g x Hx). eauto.
Qed.

End FrequencyPattern.



(* ================================================================== *)
(** * Worst findings and their enrichment *)
(* ================================================================== *)

Section Findings.

Lemma mapM_map_fst {A B C} (f : A -> result (B * C)) (key : A -> B)
  (l : list A) (r : list (B * C)) :
  (forall a b, f a = Ok b -> fst b = key a) ->
  mapM f l = Ok r -> map fst r = map key l.
Proof.
  intros Hf. revert r. induction l as [|a l IH]; intros r H; cbn [mapM] in H.
  - now injection H as <-.
  - destruct (f a) as [b|] eqn:E; [|discriminate]. cbn [bind] in H.
    destruct (mapM f l) as [bs|]; [|discriminate]. cbn [bind] in H.
    injection H as <-. cbn [map]. now rewrite (Hf a b E), (IH bs eq_refl).
Qed.

Lemma finding_bigram (g : list str) (b : str * float) :
  finding g = Ok b -> fst b = group g 1.
Proof.
  unfold finding. destruct (float_of_str (group g 2)); [|discriminate].
  cbn [bind]. now intros [= <-].
Qed.

(** The section the findings are taken from. *)
Lemma worst_section_eq (message pre post : str) :
  partition "Worst:" message = Some (pre, post) ->
  extract_worst_bigrams message
  = mapM finding (re_findall pat_worst (before ";" (before "Worst:" post))).
Proof.
  intros P. unfold extract_worst_bigrams.
  assert (C : contains "Worst:" message = true)
    by (apply contains_true; eauto).
  rewrite C. cbn [negb].
  rewrite (split_second "Worst:" message pre post) by (discriminate || assumption).
  cbn [bind]. set (ws := before "Worst:" post).
  destruct (contains ";" ws) eqn:E.
  - now rewrite split_first.
  - apply contains_false in E. unfold before at 1. now rewrite E.
Qed.

Lemma firstn_diff2 (a b : ascii) (rest : str) :
  firstn (length (a :: b :: rest) - length rest) (a :: b :: rest) = [a; b].
Proof. apply (firstn_diff [a; b] rest). Qed.

Lemma firstn_diff_cons (d : ascii) (m rest : str) :
  firstn (length (d :: m ++ rest) - length rest) (d :: m ++ rest) = d :: m.
Proof. apply (firstn_diff (d :: m) rest). Qed.

(** One occurrence of the pattern at the start of a text. *)
Lemma match_worst (c1 c2 : ascii) (percent rest : str) :
  is_word c1 = true -> is_word c2 = true ->
  negb (is_nil percent) && forallb is_digit_or_dot percent = true ->
  match_here pat_worst [] [] (([c1; c2] ++ " (" ++ percent ++ "%)") ++ rest)
  = Some ([[c1; c2]; percent], rest).
Proof.
  intros H1 H2 Hp. apply andb_true_iff in Hp as [Hn Hp].
  destruct percent as [|d percent]; [discriminate|].
  cbn [forallb] in Hp. apply andb_true_iff in Hp as [Hd Hp].
  unfold pat_worst. rewrite <- !app_assoc.
  cbn [lits map lit String.list_ascii_of_string app match_here].
  rewrite H1, H2.
  destruct (ascii_dec " " " "); [|congruence].
  destruct (ascii_dec "(" "("); [|congruence].
  rewrite Hd.
  apply star_greedy; [assumption|reflexivity|].
  cbn [app match_here].
  destruct (ascii_dec "%" "%"); [|congruence].
  destruct (ascii_dec ")" ")"); [|congruence].
  now rewrite firstn_diff2, firstn_diff_cons.
Qed.

Lemma freq_str_eq (freq : num) : freq_str freq = fmt_num 2 freq ++ "%".
Proof.
  unfold freq_str, rstrip. cbn [lit String.list_ascii_of_string].
  now rewrite !rstrip_by_keep.
Qed.

(** A message without the marker is returned as it is. *)
Lemma add_frequencies_no_marker (message : str) (bigram_frequencies : dict float) :
  contains "Worst:" message = false ->
  add_frequencies message bigram_frequencies = Ok message.
Proof.
  intros H. unfold add_frequencies, extract_worst_bigrams. now rewrite H.
Qed.

(** A message whose section holds no match of the pattern is returned as it
    is. *)
Lemma add_frequencies_no_match (message pre post : str)
  (bigram_frequencies : dict float) :
  partition "Worst:" message = Some (pre, post) ->
  re_findall pat_worst (before ";" (before "Worst:" post)) = [] ->
  add_frequencies message bigram_frequencies = Ok message.
Proof.
  intros P H. unfold add_frequencies.
  now rewrite (worst_section_eq message pre post P), H.
Qed.

End Findings.

(** C3, as the code has it. The findings are taken from the text between
    the first "Worst:" and the next "Worst:" or ";", whichever comes first:
    one pair per match of the pattern, in match order, as long as every
    matched number is one [float] reads. Two word characters, " (", digits
    and points, "%)" are one match. A message without the marker gives the
    empty list, and the message of the specification gives
    [("th", 4.32), ("he", 3.1)]. *)
Theorem extract_worst_bigrams_section :
  (forall message,
     contains "Worst:" message = false -> extract_worst_bigrams message = Ok [])
  /\ (forall message pre post,
        partition "Worst:" message = Some (pre, post) ->
        extract_worst_bigrams message
        = mapM finding
            (re_findall pat_worst (before ";" (before "Worst:" post))))
  /\ (forall section findings,
        mapM finding (re_findall pat_worst section) = Ok findings ->
        map fst findings
        = map (fun g => group g 1) (re_findall pat_worst section))
  /\ (forall c1 c2 percent rest,
        is_word c1 = true -> is_word c2 = true ->
        negb (is_nil percent) && forallb is_digit_or_dot percent = true ->
        match_here pat_worst [] []
          (([c1; c2] ++ " (" ++ percent ++ "%)") ++ rest)
        = Some ([[c1; c2]; percent], rest))
  /\ extract_worst_bigrams
       "Cost 1.5 (2.0%) Worst: th (4.32%), he (3.1%);  Worst non-fixed: ab (9.9%)"
     = Ok [(lit "th", decimal_value "4" "32"); (lit "he", decimal_value "3" "1")].
Proof.
  repeat apply conj.
  - intros message H. unfold extract_worst_bigrams. now rewrite H.
  - apply worst_section_eq.
  - intros section findings H.
    apply (mapM_map_fst finding (fun g => group g 1) _ _ finding_bigram H).
  - apply match_worst.
  - vm_compute. reflexivity.
Qed.

(** The section of a message with one marker and no ";". *)
Lemma extract_worst_bigrams_section_witness :
  extract_worst_bigrams "Worst: th (4.32%)"
  = mapM finding
      (re_findall pat_worst (before ";" (before "Worst:" " th (4.32%)"))).
Proof.
  apply (proj1 (proj2 extract_worst_bigrams_section) _ []). reflexivity.
Defined.

(** C3 as stated fails: after the first marker of this message there is no
    ";" and the pattern occurs twice, but the function stops at the second
    marker and returns one pair. *)
Lemma extract_worst_bigrams_second_marker :
  partition "Worst:" "Worst: ab (1.0%) Worst: cd (2.0%)"
  = Some ([], lit " ab (1.0%) Worst: cd (2.0%)")
  /\ contains ";" " ab (1.0%) Worst: cd (2.0%)" = false
  /\ re_findall pat_worst " ab (1.0%) Worst: cd (2.0%)"
     = [[lit "ab"; lit "1.0"]; [lit "cd"; lit "2.0"]]
  /\ extract_worst_bigrams "Worst: ab (1.0%) Worst: cd (2.0%)"
     = Ok [(lit "ab", decimal_value "1" "0")].
Proof. vm_compute. repeat split. Qed.

(** C4. The frequency text is the number with two decimal places and a
    percent sign: the sign is put before the zeros and the point are
    stripped, so nothing is stripped. With a frequency of 4.5 for "th" the
    finding "th (4.32%)" becomes "th (4.32%, freq: 4.50%)", and with no
    frequency for it "th (4.32%, freq: 0.00%)". [format_frequencies], which
    [process_layout_metrics] applies next, turns these into "freq: 4.5%"
    and "freq: 0.0%". *)
Theorem add_frequencies_keeps_zeros :
  (forall freq, freq_str freq = fmt_num 2 freq ++ "%")
  /\ add_frequencies "Worst: th (4.32%)" [(lit "th", decimal_value "4" "5")]
     = Ok (lit "Worst: th (4.32%, freq: 4.50%)")
  /\ add_frequencies "Worst: th (4.32%)" [(lit "he", decimal_value "4" "5")]
     = Ok (lit "Worst: th (4.32%, freq: 0.00%)")
  /\ format_frequencies "Worst: th (4.32%, freq: 4.50%)"
     = Ok (lit "Worst: th (4.32%, freq: 4.5%)")
  /\ format_frequencies "Worst: th (4.32%, freq: 0.00%)"
     = Ok (lit "Worst: th (4.32%, freq: 0.0%)").
Proof.
  repeat apply conj.
  - apply freq_str_eq.
  - vm_compute. reflexivity.
  - vm_compute. reflexivity.
  - vm_compute. reflexivity.
  - vm_compute. reflexivity.
Qed.

(** C7. The section of "Worst: ab (1.2.3%)" holds no finding with a number,
    yet the pattern matches "ab (1.2.3%)" and [float] raises on "1.2.3":
    the message is not returned. *)
Theorem add_frequencies_raises :
  forall bigram_frequencies,
    add_frequencies "Worst: ab (1.2.3%)" bigram_frequencies
    = Raise (ValueError "1.2.3").
Proof. intros bigram_frequencies. vm_compute. reflexivity. Qed.

(** C10. Each of the three labels is removed wherever it stands. Removing
    a label from a text with an occurrence between [a] and [b] removes that
    occurrence and what it removes from [a] and from [b]. The three removals
    run on the whole message one after the other, and an occurrence of a
    label is still there, untouched, when its turn comes: the labels before
    it are removed from [a] and from [b] as if it were not between them. In
    [clean_worst_message] this happens before the rounding. *)
Theorem clean_worst_message_removes_labels :
  Forall (fun prefix =>
            forall a b,
              replace (a ++ prefix ++ b) prefix []
              = replace a prefix [] ++ replace b prefix [])
    prefixes
  /\ (forall a b,
        remove_prefixes (a ++ "Finger loads % (no thumb): " ++ b)
        = replace
            (replace
               (replace a "Finger loads % (no thumb): " []
                  ++ replace b "Finger loads % (no thumb): " [])
               "Hand loads % (no thumb): " [])
            "Worst: " [])
  /\ (forall a b,
        remove_prefixes (a ++ "Hand loads % (no thumb): " ++ b)
        = replace
            (replace (replace a "Finger loads % (no thumb): " [])
               "Hand loads % (no thumb): " []
               ++ replace (replace b "Finger loads % (no thumb): " [])
                    "Hand loads % (no thumb): " [])
            "Worst: " [])
  /\ (forall a b,
        remove_prefixes (a ++ "Worst: " ++ b)
        = remove_prefixes a ++ remove_prefixes b)
  /\ (forall message metric_name,
        clean_worst_message message metric_name
        = do m <- remove_non_fixed message;
          do r <- round_numbers metric_name (remove_prefixes m);
          Ok (strip r))
  /\ clean_worst_message "Total 3, Worst: th; Hand loads % (no thumb): x"
       "Scissoring"
     = Ok (lit "Total 3, th; x").
Proof.
  repeat apply conj.
  - unfold prefixes.
    repeat (apply Forall_cons;
            [intros a b; apply replace_border_free;
             [discriminate|vm_compute; reflexivity]|]).
    apply Forall_nil.
  - intros a b. unfold remove_prefixes, prefixes. cbn [fold_left].
    change (lit "") with (@nil ascii).
    now rewrite replace_border_free by (discriminate || (vm_compute; reflexivity)).
  - intros a b. unfold remove_prefixes, prefixes. cbn [fold_left].
    change (lit "") with (@nil ascii).
    rewrite replace_apart by (vm_compute; reflexivity).
    now rewrite replace_border_free by (discriminate || (vm_compute; reflexivity)).
  - intros a b. unfold remove_prefixes, prefixes. cbn [fold_left].
    change (lit "") with (@nil ascii).
    rewrite replace_apart by (vm_compute; reflexivity).
    rewrite replace_apart by (vm_compute; reflexivity).
    now rewrite replace_border_free by (discriminate || (vm_compute; reflexivity)).
  - reflexivity.
  - vm_compute. reflexivity.
Qed.

(* ================================================================== *)
(** * The frequency table *)
(* ================================================================== *)

Section Corpus.

Lemma dict_get_set_same {V} (d : dict V) (k : str) (v : V) :
  dict_get (dict_set d k v) k = Some v.
Proof.
  induction d as [|[k' v'] d IH]; cbn [dict_set dict_get].
  - now rewrite str_eqb_refl.
  - destruct (str_eqb k k') eqn:E; cbn [dict_get]; rewrite E; auto.
Qed.

Lemma dict_get_set_other {V} (d : dict V) (k k' : str) (v : V) :
  k' <> k -> dict_get (dict_set d k v) k' = dict_get d k'.
Proof.
  intros N. induction d as [|[k0 v0] d IH]; cbn [dict_set dict_get].
  - apply str_eqb_neq in N. now rewrite N.
  - destruct (str_eqb k k0) eqn:E; cbn [dict_get].
    + apply str_eqb_eq in E. subst k0.
      apply str_eqb_neq in N. now rewrite N.
    + destruct (str_eqb k' k0); auto.
Qed.

(** What a line contributes passed the tests of the loop body. *)
Lemma parse_line_accepts (line bigram : str) (freq : float) :
  parse_line line = Ok (Some (bigram, freq)) ->
  exists p0 rest,
    split " " (strip line) = p0 :: bigram :: rest
    /\ float_of_str p0 = Ok freq
    /\ length bigram = 2 /\ forallb is_alpha bigram = true.
Proof.
  unfold parse_line. intros H.
  destruct (split " " (strip line)) as [|p0 [|b rest]]; try discriminate.
  cbn [length Nat.leb index nth_error bind] in H.
  destruct (float_of_str p0) as [x|] eqn:F; [|discriminate]. cbn [bind] in H.
  destruct (length b =? 2) eqn:L; [|discriminate].
  destruct (isalpha b) eqn:A; [|discriminate].
  cbn [andb] in H. injection H as <- <-.
  exists p0, rest. split; [reflexivity|]. split; [assumption|]. split.
  - now apply Nat.eqb_eq.
  - unfold isalpha in A. now apply andb_true_iff in A as [_ A].
Qed.

(** Letters are neither digits nor ASCII punctuation. *)
Lemma is_alpha_letter (c : ascii) :
  is_alpha c = true ->
  is_digit c = false
  /\ (code c < 128 -> in_range 65 90 c || in_range 97 122 c = true).
Proof.
  destruct c as [[] [] [] [] [] [] [] []]; vm_compute; intros H;
    try discriminate H; split; (reflexivity || lia || trivial).
Qed.

Lemma load_lines_last (lines : list str)
  (entries : list (option (str * float))) (acc : dict float) :
  mapM parse_line lines = Ok entries ->
  exists frequencies,
    load_lines acc lines = Ok frequencies
    /\ forall bigram,
         dict_get frequencies bigram
         = match last_entry bigram entries with
           | Some x => Some x
           | None => dict_get acc bigram
           end.
Proof.
  revert entries acc. induction lines as [|line lines IH]; intros entries acc H;
    cbn [mapM] in H.
  - injection H as <-. exists acc. split; [reflexivity|]. reflexivity.
  - destruct (parse_line line) as [e|] eqn:E; [|discriminate]. cbn [bind] in H.
    destruct (mapM parse_line lines) as [es|] eqn:M; [|discriminate].
    cbn [bind] in H. injection H as <-.
    cbn [load_lines]. unfold load_line. rewrite E. cbn [bind].
    destruct e as [[b x]|]; cbn [bind].
    + destruct (IH es (dict_set acc b x) eq_refl) as (fr & Hfr & Hget).
      exists fr. split; [assumption|]. intros bigram. rewrite Hget.
      cbn [last_entry]. destruct (last_entry bigram es); [reflexivity|].
      destruct (str_eqb bigram b) eqn:Eb.
      * apply str_eqb_eq in Eb. subst. apply dict_get_set_same.
      * apply str_eqb_neq in Eb. now apply dict_get_set_other.
    + destruct (IH es acc eq_refl) as (fr & Hfr & Hget).
      exists fr. split; [assumption|]. intros bigram. rewrite Hget.
      cbn [last_entry]. now destruct (last_entry bigram es).
Qed.

(** Without a frequency table the message of a metric is kept. *)
Lemma process_metric_cost_no_table (metrics_data : dict metric)
  (metric_cost : MetricCost) :
  process_metric_cost [] metrics_data metric_cost
  = Ok (dict_set metrics_data (core_name metric_cost)
          (Metric (weighted_cost metric_cost) (core_message metric_cost))).
Proof.
  unfold process_metric_cost. cbn [is_nil negb]. now rewrite andb_false_r.
Qed.

End Corpus.

(** C8, as the code has it. A line enters the table only when the second
    of the parts that single spaces separate in the stripped line is exactly
    two letters in the sense of [str.isalpha], which takes letters beyond
    ASCII as well (no digit, no ASCII punctuation), and the first part is a
    number [float] reads; the table ends with the frequency of the last line
    that holds a bigram; and without a corpus name the table is empty, the
    records are built with it and every message is kept as it is. *)
Theorem load_bigram_frequencies_table :
  (forall line bigram freq,
     parse_line line = Ok (Some (bigram, freq)) ->
     exists p0 rest,
       split " " (strip line) = p0 :: bigram :: rest
       /\ float_of_str p0 = Ok freq
       /\ length bigram = 2 /\ forallb is_alpha bigram = true)
  /\ (forall c,
        is_alpha c = true ->
        is_digit c = false
        /\ (code c < 128 -> in_range 65 90 c || in_range 97 122 c = true))
  /\ (forall lines entries,
        mapM parse_line lines = Ok entries ->
        exists frequencies,
          load_lines [] lines = Ok frequencies
          /\ forall bigram,
               dict_get frequencies bigram = last_entry bigram entries)
  /\ (forall pf json_file text w,
        dict_get (files w) json_file = Some text ->
        parse_layouts pf json_file None w
        = (do data <- json_load pf text; layout_records data [], w))
  /\ (forall metrics_data metric_cost,
        process_metric_cost [] metrics_data metric_cost
        = Ok (dict_set metrics_data (core_name metric_cost)
                (Metric (weighted_cost metric_cost)
                   (core_message metric_cost)))).
Proof.
  repeat apply conj.
  - apply parse_line_accepts.
  - apply is_alpha_letter.
  - intros lines entries H.
    destruct (load_lines_last lines entries [] H) as (fr & Hfr & Hget).
    exists fr. split; [assumption|]. intros bigram. rewrite Hget.
    now destruct (last_entry bigram entries).
  - intros pf json_file text w H.
    unfold parse_layouts, iobind, read_text. rewrite H.
    unfold lift. destruct (json_load pf text); reflexivity.
  - apply process_metric_cost_no_table.
Qed.

(** The table of a corpus with the bigram "th" on two lines. *)
Lemma load_bigram_frequencies_table_witness :
  exists frequencies,
    load_lines [] [lit "1.5 th 10"; lit "2.5 he"; lit "3.5 th"]
    = Ok frequencies
    /\ forall bigram,
         dict_get frequencies bigram
         = last_entry bigram
             [Some (lit "th", decimal_value "1" "5");
              Some (lit "he", decimal_value "2" "5");
              Some (lit "th", decimal_value "3" "5")].
Proof.
  apply (proj1 (proj2 (proj2 load_bigram_frequencies_table))).
  vm_compute. reflexivity.
Defined.

(** C8 as stated fails: the line "1.0 ", U+00E9, U+00E9 enters the table,
    and its bigram is two letters that UTF-8 writes in two bytes each. *)
Lemma load_accepts_multi_byte_letters :
  load_lines [] [lit "1.0 " ++ [ascii_of_nat 233; ascii_of_nat 233]]
  = Ok [([ascii_of_nat 233; ascii_of_nat 233], decimal_value "1" "0")]
  /\ forallb (fun c => 128 <=? code c) [ascii_of_nat 233; ascii_of_nat 233]
     = true.
Proof. vm_compute. split; reflexivity. Qed.

(* ================================================================== *)
(** * The columns of a row *)
(* ================================================================== *)

Section Rows.

Lemma remove_non_fixed_total (message : str) :
  exists m, remove_non_fixed message = Ok m.
Proof.
  unfold remove_non_fixed. destruct (contains _ message); [|eauto].
  rewrite split_first. eauto.
Qed.

(** [clean_worst_message] never raises. *)
Lemma clean_worst_message_total (message metric_name : str) :
  exists r, clean_worst_message message metric_name = Ok r.
Proof.
  unfold clean_worst_message.
  destruct (remove_non_fixed_total message) as [m ->]. cbn [bind].
  destruct (round_numbers_total metric_name (remove_prefixes m)) as [r ->].
  cbn [bind]. eauto.
Qed.

Lemma build_cell_total (total_cost : num) (metrics_data : dict metric)
  (c : column) :
  exists v, build_cell total_cost metrics_data c = Ok v.
Proof.
  unfold build_cell.
  destruct (format c); destruct (dict_get metrics_data (metric_name c)) as [m|];
    try destruct (str_eqb (display_header c) "Total Cost"); eauto;
    destruct (clean_worst_message_total (message m) (metric_name c)) as [r ->];
    cbn [bind]; eauto.
Qed.

(** A column other than the total whose metric is absent is empty. *)
Lemma build_cell_absent (total_cost : num) (metrics_data : dict metric)
  (c : column) :
  dict_get metrics_data (metric_name c) = None ->
  display_header c <> lit "Total Cost" ->
  build_cell total_cost metrics_data c = Ok (CStr "").
Proof.
  intros H N. apply str_eqb_neq in N. unfold build_cell. rewrite H, N.
  now destruct (format c).
Qed.

Lemma dict_keys_set_new {V} (d : dict V) (k : str) (v : V) :
  ~ In k (dict_keys d) -> dict_keys (dict_set d k v) = dict_keys d ++ [k].
Proof.
  induction d as [|[k' v'] d IH]; intros N; [reflexivity|].
  cbn [dict_set]. destruct (str_eqb k k') eqn:E.
  - apply str_eqb_eq in E. subst. exfalso. apply N. now left.
  - cbn [dict_keys map fst app]. f_equal. apply IH. intros H. apply N. now right.
Qed.

Lemma dict_get_not_in {V} (d : dict V) (k : str) :
  ~ In k (dict_keys d) -> dict_get d k = None.
Proof.
  induction d as [|[k' v'] d IH]; intros N; [reflexivity|].
  cbn [dict_get]. destruct (str_eqb k k') eqn:E.
  - apply str_eqb_eq in E. subst. exfalso. apply N. now left.
  - apply IH. intros H. apply N. now right.
Qed.

(** The loop of [build_layout_row] over columns with distinct new headers:
    it ends, appends the headers in order, keeps what the row held and binds
    every header to the cell of its column. *)
Lemma row_loop (total_cost : num) (metrics_data : dict metric)
  (cols : list column) (r0 : row) :
  NoDup (dict_keys r0 ++ map display_header cols) ->
  exists r,
    foldM (fun (r : row) c =>
             do v <- build_cell total_cost metrics_data c;
             Ok (dict_set r (display_header c) v)) cols r0 = Ok r
    /\ dict_keys r = dict_keys r0 ++ map display_header cols
    /\ (forall k, In k (dict_keys r0) -> dict_get r k = dict_get r0 k)
    /\ (forall c, In c cols ->
          Ok (A:=cell) match dict_get r (display_header c) with
                       | Some v => v
                       | None => CStr []
                       end
          = build_cell total_cost metrics_data c).
Proof.
  revert r0. induction cols as [|c cols IH]; intros r0 ND.
  - exists r0. cbn [foldM map]. rewrite app_nil_r.
    split; [reflexivity|]. split; [reflexivity|].
    split; [reflexivity|intros c []].
  - cbn [foldM].
    destruct (build_cell_total total_cost metrics_data c) as [v Hv].
    rewrite Hv. cbn [bind].
    assert (Nk : ~ In (display_header c) (dict_keys r0)).
    { intros H. apply NoDup_remove_2 in ND. apply ND, in_or_app. now left. }
    assert (Ek : dict_keys (dict_set r0 (display_header c) v)
                 = dict_keys r0 ++ [display_header c])
      by now apply dict_keys_set_new.
    destruct (IH (dict_set r0 (display_header c) v)) as (r & Hr & Kr & Gr & Cr).
    { rewrite Ek, <- app_assoc. exact ND. }
    exists r. split; [assumption|]. split; [|split].
    + rewrite Kr, Ek, <- app_assoc. reflexivity.
    + intros k Hk. rewrite Gr by (rewrite Ek; apply in_or_app; now left).
      apply dict_get_set_other. intros ->. contradiction.
    + intros c' [<-|Hc'].
      * rewrite Gr by (rewrite Ek; apply in_or_app; right; now left).
        now rewrite dict_get_set_same.
      * now apply Cr.
Qed.

Lemma nodupb_NoDup (l : list str) : nodupb l = true -> NoDup l.
Proof.
  induction l as [|x t IH]; intros H; [constructor|].
  cbn [nodupb] in H. apply andb_true_iff in H as [Hx Ht].
  constructor; [|auto]. intros Hin. apply negb_true_iff in Hx.
  unfold in_list in Hx.
  assert (E : existsb (str_eqb x) t = true)
    by (apply existsb_exists; exists x; split; [assumption|apply str_eqb_refl]).
  congruence.
Qed.

Lemma column_headers_distinct : NoDup COLUMN_HEADERS.
Proof. apply nodupb_NoDup. vm_compute. reflexivity. Qed.

Lemma build_layout_row_columns (layout : str) (total_cost : num)
  (metrics_data : dict metric) :
  exists r,
    build_layout_row layout total_cost metrics_data = Ok r
    /\ dict_keys r = COLUMN_HEADERS
    /\ dict_get r "Layout" = Some (CStr layout)
    /\ dict_get r "Total Cost" = Some (CNum (round total_cost 1))
    /\ (forall c, In c METRICS_ORDER ->
          dict_get metrics_data (metric_name c) = None ->
          display_header c <> lit "Total Cost" ->
          dict_get r (display_header c) = Some (CStr "")).
Proof.
  unfold build_layout_row. cbn [COLUMN_HEADERS index nth_error bind dict_set].
  destruct (row_loop total_cost metrics_data METRICS_ORDER
              [(lit "Layout", CStr layout)])
    as (r & Hr & Kr & Gr & Cr).
  { exact column_headers_distinct. }
  exists r. split; [exact Hr|]. split; [exact Kr|].
  assert (Hall : forall c, In c METRICS_ORDER ->
                   exists v, dict_get r (display_header c) = Some v
                             /\ build_cell total_cost metrics_data c = Ok v).
  { intros c Hc. specialize (Cr c Hc).
    destruct (dict_get r (display_header c)) as [v|] eqn:E; [eauto|].
    exfalso. assert (In (display_header c) (dict_keys r)).
    { rewrite Kr. apply in_or_app. right. now apply in_map. }
    clear - E H. induction r as [|[k v] r IH]; [destruct H|].
    cbn [dict_get] in E. destruct (str_eqb (display_header c) k) eqn:Ek;
      [discriminate|]. destruct H as [H|H].
    - cbn in H. subst. now rewrite str_eqb_refl in Ek.
    - auto. }
  split; [|split].
  - rewrite Gr by (now left). cbn [dict_get]. now rewrite str_eqb_refl.
  - destruct (Hall (Column "Total Cost" "total_cost" (number 1)))
      as (v & Hv & Hc); [now left|].
    cbn [display_header] in Hv. rewrite Hv. f_equal.
    unfold build_cell in Hc. cbn [format display_header] in Hc.
    rewrite str_eqb_refl in Hc. now injection Hc as <-.
  - intros c Hc Habs Hn. destruct (Hall c Hc) as (v & Hv & Hb).
    rewrite Hv. f_equal.
    rewrite (build_cell_absent total_cost metrics_data c Habs Hn) in Hb.
    now injection Hb as <-.
Qed.

Lemma mapM_Forall {A B} (f : A -> result B) (P : B -> Prop)
  (l : list A) (r : list B) :
  (forall a b, f a = Ok b -> P b) -> mapM f l = Ok r -> Forall P r.
Proof.
  intros Hf. revert r. induction l as [|a l IH]; intros r H; cbn [mapM] in H.
  - injection H as <-. constructor.
  - destruct (f a) as [b|] eqn:E; [|discriminate]. cbn [bind] in H.
    destruct (mapM f l) as [bs|]; [|discriminate]. cbn [bind] in H.
    injection H as <-. constructor; eauto.
Qed.

End Rows.

(** C1, as the code has it. Every row is keyed by the thirteen column names
    of [COLUMN_HEADERS], "Layout" and the twelve headers of
    [METRICS_ORDER], in that order, whatever metrics the layout has; the
    "Layout" cell is the layout, the "Total Cost" cell the rounded total,
    and every other column whose source metric is absent holds the empty
    string. All the records of a results file have these keys. *)
Theorem build_layout_row_fixed_columns :
  length COLUMN_HEADERS = 13
  /\ (forall layout total_cost metrics_data,
        exists r,
          build_layout_row layout total_cost metrics_data = Ok r
          /\ dict_keys r = COLUMN_HEADERS
          /\ dict_get r "Layout" = Some (CStr layout)
          /\ dict_get r "Total Cost" = Some (CNum (round total_cost 1))
          /\ (forall c, In c METRICS_ORDER ->
                dict_get metrics_data (metric_name c) = None ->
                display_header c <> lit "Total Cost" ->
                dict_get r (display_header c) = Some (CStr "")))
  /\ (forall data bigram_frequencies records,
        layout_records data bigram_frequencies = Ok records ->
        Forall (fun r => dict_keys r = COLUMN_HEADERS) records).
Proof.
  repeat apply conj.
  - reflexivity.
  - apply build_layout_row_columns.
  - intros data bigram_frequencies records H. unfold layout_records in H.
    refine (mapM_Forall _ _ _ _ _ H). intros raw r Hr.
    destruct (process_layout_metrics raw bigram_frequencies) as [md|];
      [|discriminate]. cbn [bind] in Hr.
    destruct (build_layout_row_columns (layout raw) (total_cost raw) md)
      as (r' & Hr' & Kr' & _).
    rewrite Hr' in Hr. now injection Hr as <-.
Qed.

(** The keys of the records of a file with one layout that has no
    metrics. *)
Lemma build_layout_row_fixed_columns_witness :
  Forall (fun r => dict_keys r = COLUMN_HEADERS)
    [[(lit "Layout", CStr "qwerty"); (lit "Total Cost", CNum (NInt 7));
      (lit "Hands Disbalance", CStr ""); (lit "Finger Disbalance", CStr "");
      (lit "Cluster Rolls", CStr ""); (lit "Scissoring", CStr "");
      (lit "Key Costs", CStr ""); (lit "Movement Pattern", CStr "");
      (lit "Cluster Rolls Worst", CStr ""); (lit "Scissoring Worst", CStr "");
      (lit "Movement Pattern Worst", CStr "");
      (lit "Secondary Bigrams Worst", CStr "");
      (lit "Trigrams Worst", CStr "")]].
Proof.
  apply (proj2 (proj2 build_layout_row_fixed_columns)
           [Build_RawResult (NInt 7) "qwerty" []] []).
  vm_compute. reflexivity.
Defined.

(** C1 as stated fails: a row has thirteen keys, "Layout" and twelve more,
    not "Layout" and eleven. *)
Lemma row_has_thirteen_columns :
  exists r,
    build_layout_row "qwerty" (NInt 7) [] = Ok r
    /\ length (dict_keys r) = 13
    /\ length (dict_keys r) <> 1 + 11.
Proof.
  eexists. split; [vm_compute; reflexivity|]. split; [reflexivity|].
  vm_compute. discriminate.
Qed.

(* ================================================================== *)
(** * The order of the records *)
(* ================================================================== *)

Section Sorting.










Context {A : Type} (key : A -> num).

Lemma insert_by_perm (x : A) (l : list A) :
  Permutation (x :: l) (insert_by key x l).
Proof.
  induction l as [|y t IH]; cbn [insert_by]; [reflexivity|].
  destruct (num_ltb (key y) (key x)); [|reflexivity].
  rewrite perm_swap. now constructor.
Qed.

Lemma sorted_perm (l : list A) : Permutation l (sorted l key).
Proof.
  induction l as [|x l IH]; cbn [sorted fold_right]; [constructor|].
  rewrite <- insert_by_perm. now constructor.
Qed.





End Sorting.

Section Records.

Lemma mapM_Forall2 {A B} (f : A -> result B) (R : A -> B -> Prop)
  (l : list A) (r : list B) :
  (forall a b, f a = Ok b -> R a b) -> mapM f l = Ok r -> Forall2 R l r.
Proof.
  intros Hf. revert r. induction l as [|a l IH]; intros r H; cbn [mapM] in H.
  - injection H as <-. constructor.
  - destruct (f a) as [b|] eqn:E; [|discriminate]. cbn [bind] in H.
    destruct (mapM f l) as [bs|]; [|discriminate]. cbn [bind] in H.
    injection H as <-. constructor; eauto.
Qed.

End Records.



(* ================================================================== *)
(** * The command: errors and the order of the outputs *)
(* ================================================================== *)

Section CliFacts.
Variable pf : platform.

Lemma raises_only_bind {A B} (P : exn -> Prop) (c : io A) (k : A -> io B) :
  raises_only P c -> (forall a, raises_only P (k a)) ->
  raises_only P (iobind c k).
Proof.
  intros Hc Hk w e w' H. unfold iobind in H.
  destruct (c w) as [[a|e0] w0] eqn:E.
  - now apply (Hk a w0 e w').
  - injection H as <- <-. now apply (Hc w e0 w0).
Qed.

Lemma raises_only_ret {A} (P : exn -> Prop) (a : A) : raises_only P (ret a).
Proof. intros w e w' H. discriminate. Qed.

Lemma raises_only_fold {A B} (P : exn -> Prop) (f : B -> A -> io B)
  (l : list A) (b : B) :
  (forall b a, raises_only P (f b a)) -> raises_only P (io_fold f l b).
Proof.
  intros Hf. revert b. induction l as [|a l IH]; intros b; cbn [io_fold].
  - apply raises_only_ret.
  - apply raises_only_bind; auto.
Qed.

Lemma raises_only_echo (line : str) : raises_only os_error (echo line).
Proof. intros w e w' H. discriminate. Qed.

Lemma raises_only_mkdir (p : path) : raises_only os_error (mkdir pf p).
Proof.
  intros w e w' H. unfold mkdir in H.
  destruct (is_dir w p); [discriminate|].
  destruct (is_file w p); [injection H as <- <-; exact I|].
  destruct (is_dir w (parent pf p)); [discriminate|].
  injection H as <- <-. now exists p.
Qed.

Lemma raises_only_read_text (p : path) : raises_only os_error (read_text p).
Proof.
  intros w e w' H. unfold read_text in H.
  destruct (dict_get (files w) p); [discriminate|].
  destruct (is_dir w p); injection H as <- <-; [exact I|now exists p].
Qed.

Lemma raises_only_write_text (p : path) (text : str) :
  raises_only os_error (write_text pf p text).
Proof.
  intros w e w' H. unfold write_text in H.
  destruct (is_dir w p); [injection H as <- <-; exact I|].
  destruct (is_file w p || is_dir w (parent pf p)); [discriminate|].
  injection H as <- <-. now exists p.
Qed.

Lemma raises_only_diagram_step (output_path : path)
  (generated : list (str * str)) (section : str) :
  raises_only os_error (diagram_step pf output_path generated section).
Proof.
  unfold diagram_step. destruct (re_search pat_layout_string section);
    [|apply raises_only_ret].
  destruct (is_nil (parse_layout_diagram section)); [apply raises_only_ret|].
  apply raises_only_bind; [apply raises_only_write_text|]. intros _.
  apply raises_only_bind; [apply raises_only_echo|]. intros _.
  apply raises_only_ret.
Qed.

Lemma os_error_not_missing_log (e : exn) (txt_file : path) :
  os_error e ->
  e <> FileNotFoundError ("Results file not found: " ++ txt_file).
Proof.
  intros H ->. destruct H as [p H]. discriminate H.
Qed.

(** The missing-log error of [parse_diagrams] is raised exactly when the
    text log does not exist. *)
Lemma parse_diagrams_missing_log (txt_file output_dir : path) (w : world) :
  (exists w',
     parse_diagrams pf txt_file output_dir w
     = (Raise (FileNotFoundError ("Results file not found: " ++ txt_file)), w'))
  <-> path_exists w txt_file = false.
Proof.
  unfold parse_diagrams, iobind at 1, exists_.
  destruct (path_exists w txt_file) eqn:E; cbn [negb]; split.
  - intros [w' H]. exfalso.
    refine (os_error_not_missing_log _ txt_file _ eq_refl).
    revert H. apply raises_only_bind; [apply raises_only_mkdir|]. intros _.
    apply raises_only_bind; [apply raises_only_read_text|]. intros content.
    apply raises_only_fold. intros b a. apply raises_only_diagram_step.
  - discriminate.
  - reflexivity.
  - intros _. now exists w.
Qed.

(** ** Files are only added *)

Lemma dict_mem_set {V} (d : dict V) (k k' : str) (v : V) :
  dict_mem d k' = true -> dict_mem (dict_set d k v) k' = true.
Proof.
  unfold dict_mem. destruct (list_eq_dec ascii_dec k' k) as [->|N].
  - now rewrite dict_get_set_same.
  - now rewrite dict_get_set_other.
Qed.

Lemma keeps_files_bind {A B} (c : io A) (k : A -> io B) :
  keeps_files c -> (forall a, keeps_files (k a)) -> keeps_files (iobind c k).
Proof.
  intros Hc Hk w r w' H p Hp. unfold iobind in H.
  destruct (c w) as [[a|e0] w0] eqn:E.
  - apply (Hk a w0 r w' H). now apply (Hc w _ w0 E).
  - injection H as <- <-. now apply (Hc w _ w0 E).
Qed.

Lemma keeps_files_pure {A} (c : io A) :
  (forall w, snd (c w) = w) -> keeps_files c.
Proof.
  intros H w r w' E p Hp. specialize (H w). rewrite E in H. cbn in H.
  now subst.
Qed.

Lemma keeps_files_fold {A B} (f : B -> A -> io B) (l : list A) (b : B) :
  (forall b a, keeps_files (f b a)) -> keeps_files (io_fold f l b).
Proof.
  intros Hf. revert b. induction l as [|a l IH]; intros b; cbn [io_fold].
  - now apply keeps_files_pure.
  - apply keeps_files_bind; auto.
Qed.

Lemma keeps_files_echo (line : str) : keeps_files (echo line).
Proof. intros w r w' H p Hp. injection H as <- <-. exact Hp. Qed.

Lemma keeps_files_mkdir (p : path) : keeps_files (mkdir pf p).
Proof.
  intros w r w' H q Hq. unfold mkdir in H.
  destruct (is_dir w p); [injection H as <- <-; exact Hq|].
  destruct (is_file w p); [injection H as <- <-; exact Hq|].
  destruct (is_dir w (parent pf p)); injection H as <- <-; exact Hq.
Qed.

Lemma keeps_files_write_text (p : path) (text : str) :
  keeps_files (write_text pf p text).
Proof.
  intros w r w' H q Hq. unfold write_text in H.
  destruct (is_dir w p); [injection H as <- <-; exact Hq|].
  destruct (is_file w p || is_dir w (parent pf p));
    injection H as <- <-; [|exact Hq].
  unfold is_file in *. cbn [files]. now apply dict_mem_set.
Qed.

Lemma keeps_files_read_text (p : path) : keeps_files (read_text p).
Proof.
  apply keeps_files_pure. intros w. unfold read_text.
  destruct (dict_get (files w) p); [reflexivity|].
  now destruct (is_dir w p).
Qed.

Lemma keeps_files_parse_diagrams (txt_file output_dir : path) :
  keeps_files (parse_diagrams pf txt_file output_dir).
Proof.
  unfold parse_diagrams.
  apply keeps_files_bind; [now apply keeps_files_pure|]. intros found.
  destruct (negb found); [now apply keeps_files_pure|].
  apply keeps_files_bind; [apply keeps_files_mkdir|]. intros _.
  apply keeps_files_bind; [apply keeps_files_read_text|]. intros content.
  apply keeps_files_fold. intros b a. unfold diagram_step.
  destruct (re_search pat_layout_string a); [|now apply keeps_files_pure].
  destruct (is_nil (parse_layout_diagram a)); [now apply keeps_files_pure|].
  apply keeps_files_bind; [apply keeps_files_write_text|]. intros _.
  apply keeps_files_bind; [apply keeps_files_echo|]. intros _.
  now apply keeps_files_pure.
Qed.

Lemma keeps_files_report_step (txt_file : path) (st : list row * path * str) :
  keeps_files (report_step pf txt_file st).
Proof.
  destruct st as [[records output_dir] output_base]. unfold report_step.
  apply keeps_files_bind; [now apply keeps_files_pure|]. intros found.
  destruct found; [|now apply keeps_files_pure].
  apply keeps_files_bind; [apply keeps_files_echo|]. intros _.
  apply keeps_files_bind; [apply keeps_files_echo|]. intros _.
  apply keeps_files_bind; [apply keeps_files_parse_diagrams|]. intros g.
  apply keeps_files_bind; [apply keeps_files_echo|]. intros _.
  apply keeps_files_write_text.
Qed.

(** ** The CSV file *)

Lemma write_text_ok (p : path) (text : str) (w w' : world) :
  write_text pf p text w = (Ok tt, w') ->
  dict_get (files w') p = Some text.
Proof.
  unfold write_text. destruct (is_dir w p); [discriminate|].
  destruct (is_file w p || is_dir w (parent pf p)); [|discriminate].
  intros [= <-]. cbn [files]. apply dict_get_set_same.
Qed.

Lemma csv_loop (output_file : path) (records : list row)
  (rows0 rows : list (list cell)) (w w' : world) :
  dict_get (files w) output_file = Some (csv_text pf rows0) ->
  io_fold (fun rows rec =>
             run cells <- lift (mapM (dict_item rec) COLUMN_HEADERS);
             run_ write_text pf output_file (csv_text pf (rows ++ [cells]));
             ret (rows ++ [cells]))
    records rows0 w = (Ok rows, w') ->
  exists body,
    mapM (fun rec => mapM (dict_item rec) COLUMN_HEADERS) records = Ok body
    /\ rows = rows0 ++ body
    /\ dict_get (files w') output_file = Some (csv_text pf rows).
Proof.
  revert rows0 w. induction records as [|rec records IH]; intros rows0 w Hw H;
    cbn [io_fold] in H.
  - injection H as <- <-. exists []. rewrite app_nil_r. auto.
  - unfold iobind at 1 in H. unfold iobind at 1, lift at 1 in H.
    destruct (mapM (dict_item rec) COLUMN_HEADERS) as [cells|] eqn:E;
      [|discriminate].
    unfold iobind at 1 in H.
    destruct (write_text pf output_file (csv_text pf (rows0 ++ [cells])) w)
      as [[[]|] w1] eqn:W; [|discriminate].
    unfold ret at 1 in H.
    destruct (IH (rows0 ++ [cells]) w1 (write_text_ok _ _ _ _ W) H)
      as (body & Hb & -> & Hf).
    exists (cells :: body). cbn [mapM]. rewrite E, Hb. cbn [bind].
    rewrite <- app_assoc in *. auto.
Qed.

(** When [export_csv] returns, the file holds all the rows. *)
Lemma export_csv_ok (records : list row) (output_file : path) (w w' : world) :
  export_csv pf records output_file w = (Ok tt, w') ->
  exists rows,
    csv_rows records = Ok rows
    /\ dict_get (files w') output_file = Some (csv_text pf rows).
Proof.
  unfold export_csv. intros H. unfold iobind at 1 in H.
  destruct (write_text pf output_file [] w) as [[[]|] w1] eqn:W1;
    [|discriminate].
  unfold iobind at 1 in H.
  destruct (write_text pf output_file
              (csv_text pf [map CStr COLUMN_HEADERS]) w1)
    as [[[]|] w2] eqn:W2; [|discriminate].
  unfold iobind at 1 in H.
  match type of H with
  | context [io_fold ?f records ?r0 w2] =>
      destruct (io_fold f records r0 w2) as [[rows|] w3] eqn:F;
        [|discriminate]
  end.
  injection H as <-.
  destruct (csv_loop output_file records _ rows w2 w3
              (write_text_ok _ _ _ _ W2) F) as (body & Hb & -> & Hf).
  exists (map CStr COLUMN_HEADERS :: body). unfold csv_rows. rewrite Hb.
  auto.
Qed.

(** When the first half of [main] returns, the CSV file is written. *)
Lemma csv_step_ok (json_file : path) (out corpus : option str)
  (records : list row) (output_dir : path) (output_base : str)
  (w w' : world) :
  csv_step pf json_file out corpus w
  = (Ok (records, output_dir, output_base), w') ->
  exists rows,
    csv_rows records = Ok rows
    /\ dict_get (files w') (joinpath pf output_dir (output_base ++ ".csv"))
       = Some (csv_text pf rows).
Proof.
  unfold csv_step.
  destruct (match given out with
            | Some o => (Path pf o, name pf (Path pf o))
            | None => (Path pf (stem pf json_file ++ "_layouts"),
                       stem pf json_file)
            end) as [dir base].
  intros H. unfold iobind at 1 in H.
  destruct (mkdir_parents pf dir w) as [[[]|] w1]; [|discriminate].
  unfold iobind at 1 in H.
  destruct (parse_layouts pf json_file corpus w1) as [[recs|] w2];
    [|discriminate].
  unfold iobind at 1 in H. unfold echo at 1 in H.
  unfold iobind at 1 in H.
  destruct (export_csv pf recs (joinpath pf dir (base ++ ".csv")) _)
    as [[[]|] w3] eqn:X; [|discriminate].
  injection H as <- <- <- <-.
  now apply export_csv_ok in X.
Qed.

End CliFacts.

(** C9. [parse_diagrams] raises its error naming the text log exactly when
    that path does not exist. In [main] the CSV file is written first: when
    the first half fails [main] fails with it and the report is never
    tried; when it returns, the CSV file holds all the rows and [main] goes
    on with the report. The report removes no file, whether it fails or not,
    and without the text log it is skipped and [main] returns. *)
Theorem parse_diagrams_missing_log_after_csv :
  (forall pf txt_file output_dir w,
     (exists w',
        parse_diagrams pf txt_file output_dir w
        = (Raise (FileNotFoundError
                    ("Results file not found: " ++ txt_file)), w'))
     <-> path_exists w txt_file = false)
  /\ (forall pf json_file out corpus w,
        match csv_step pf json_file out corpus w with
        | (Ok (records, output_dir, output_base), w1) =>
            main pf json_file out corpus w
            = report_step pf (with_suffix pf json_file ".txt")
                (records, output_dir, output_base) w1
            /\ exists rows,
                 csv_rows records = Ok rows
                 /\ dict_get (files w1)
                      (joinpath pf output_dir (output_base ++ ".csv"))
                    = Some (csv_text pf rows)
        | (Raise e, w1) => main pf json_file out corpus w = (Raise e, w1)
        end)
  /\ (forall pf txt_file st, keeps_files (report_step pf txt_file st))
  /\ (forall pf txt_file st w,
        path_exists w txt_file = false ->
        report_step pf txt_file st w = (Ok tt, w)).
Proof.
  repeat apply conj.
  - apply parse_diagrams_missing_log.
  - intros pf json_file out corpus w.
    destruct (csv_step pf json_file out corpus w)
      as [[[[records output_dir] output_base]|e] w1] eqn:E.
    + split; [unfold main, iobind; now rewrite E|].
      now apply (csv_step_ok pf json_file out corpus _ _ _ w w1).
    + unfold main, iobind. now rewrite E.
  - apply keeps_files_report_step.
  - intros pf txt_file [[records output_dir] output_base] w H.
    unfold report_step, iobind, exists_. now rewrite H.
Qed.

(** Without the text log the report is skipped. *)
Lemma parse_diagrams_missing_log_after_csv_witness :
  report_step sample_platform "results.txt" ([], lit "out", lit "results")
    (World [] [lit "."] [])
  = (Ok tt, World [] [lit "."] []).
Proof.
  apply (proj2 (proj2 (proj2 parse_diagrams_missing_log_after_csv))).
  reflexivity.
Defined.

(* ================================================================== *)
(** * Further properties of the messages *)
(* ================================================================== *)

Section NumberTexts.

Lemma dd_facts (c : ascii) :
  is_digit_or_dot c = true ->
  (is_digit c = true \/ c = "."%char)
  /\ c <> "-"%char /\ c <> "+"%char /\ c <> "_"%char
  /\ lower_char c = c /\ c <> "i"%char /\ c <> "n"%char
  /\ is_float_space c = false.
Proof.
  destruct c as [[] [] [] [] [] [] [] []]; vm_compute; intros H;
    try discriminate H; repeat split; (congruence || auto).
Qed.

Lemma span_digits (p : str) :
  exists i rest,
    p = i ++ rest /\ forallb is_digit i = true
    /\ match rest with c :: _ => is_digit c = false | [] => True end.
Proof.
  induction p as [|c p (i & rest & -> & Hi & Hr)].
  - now exists [], [].
  - destruct (is_digit c) eqn:E.
    + exists (c :: i), rest. cbn [forallb app]. now rewrite E, Hi.
    + exists [], (c :: i ++ rest). now rewrite E.
Qed.

Lemma count_points_app (a b : str) :
  count_points (a ++ b) = count_points a + count_points b.
Proof. unfold count_points. now rewrite filter_app, length_app. Qed.

Lemma count_points_digits (i : str) :
  forallb is_digit i = true -> count_points i = 0.
Proof.
  unfold count_points. induction i as [|c i IH]; [reflexivity|].
  cbn [forallb filter]. intros H. apply andb_true_iff in H as [Hc Hi].
  destruct (digit_facts c Hc) as (_ & _ & _ & Hp & _).
  destruct (ascii_dec c "."); [congruence|auto].
Qed.

Lemma existsb_digits (i : str) :
  forallb is_digit i = true -> existsb is_digit i = negb (is_nil i).
Proof.
  destruct i as [|c i]; [reflexivity|]. cbn. intros H.
  apply andb_true_iff in H as [-> _]. reflexivity.
Qed.

Lemma rest_point (rest : str) :
  forallb is_digit_or_dot rest = true ->
  match rest with c :: _ => is_digit c = false | [] => True end ->
  rest = [] \/ exists t, rest = "."%char :: t /\ forallb is_digit_or_dot t = true.
Proof.
  destruct rest as [|c t]; [now left|]. cbn [forallb]. intros H Hc.
  apply andb_true_iff in H as [Hd Ht]. right. exists t. split; [|assumption].
  destruct (dd_facts c Hd) as ([D | ->] & _); [congruence|reflexivity].
Qed.

(** [float] on a text of digits and points comes down to [read_number]. *)
Lemma float_of_str_numeric (p : str) :
  p <> [] -> forallb is_digit_or_dot p = true ->
  float_of_str p
  = match read_number false p with
    | Some x => Ok x
    | None => Raise (ValueError p)
    end.
Proof.
  intros Hn Hp. unfold float_of_str. rewrite strip_by_id.
  2:{ rewrite forallb_forall in *. intros x Hx. apply negb_true_iff.
      now apply dd_facts, Hp. }
  destruct p as [|c t]; [congruence|]. cbn [forallb] in Hp.
  apply andb_true_iff in Hp as [Hc Ht].
  destruct (dd_facts c Hc) as (_ & Hm & Hpl & _ & Hl & Hi & Hnn & _).
  cbn [read_sign]. destruct (ascii_dec c "-"); [congruence|].
  destruct (ascii_dec c "+"); [congruence|].
  assert (S1 : str_eqb (lower (c :: t)) "inf" || str_eqb (lower (c :: t)) "infinity"
               = false).
  { cbn [lower map]. rewrite Hl. apply orb_false_iff.
    split; apply str_eqb_neq; intros E; injection E; intros; congruence. }
  assert (S2 : str_eqb (lower (c :: t)) "nan" = false).
  { cbn [lower map]. rewrite Hl.
    apply str_eqb_neq; intros E; injection E; intros; congruence. }
  now rewrite S1, S2.
Qed.

Lemma read_exponent_point (t : str) : read_exponent ("."%char :: t) = None.
Proof. reflexivity. Qed.

(** [float] reads a text of digits and points exactly when it is a
    well-formed number. *)
Lemma float_of_str_well_formed (p : str) :
  forallb is_digit_or_dot p = true ->
  (well_formed_number p = true -> exists x, float_of_str p = Ok x)
  /\ (well_formed_number p = false -> float_of_str p = Raise (ValueError p)).
Proof.
  intros Hp. destruct p as [|c0 t0] eqn:Ep; [split; [discriminate|reflexivity]|].
  rewrite <- Ep in *. assert (Hn : p <> []) by (rewrite Ep; discriminate).
  clear Ep c0 t0. rewrite (float_of_str_numeric p Hn Hp).
  destruct (span_digits p) as (i & rest & -> & Hi & Hr).
  rewrite forallb_app in Hp. apply andb_true_iff in Hp as [_ Hrest].
  unfold read_number, well_formed_number.
  rewrite count_points_app, (count_points_digits i Hi), existsb_app,
    (existsb_digits i Hi). cbn [Nat.add].
  destruct (rest_point rest Hrest Hr) as [->|(t & -> & Ht)].
  - rewrite (digitpart_digits i [] Hi I). cbn [existsb orb count_points filter length].
    destruct i as [|c i]; [now rewrite app_nil_r in Hn|].
    cbn. split; [eauto|discriminate].
  - rewrite (digitpart_digits i ("."%char :: t) Hi)
      by (split; [reflexivity|discriminate]).
    destruct (ascii_dec "." "."); [|congruence].
    destruct (span_digits t) as (f & rest2 & -> & Hf & Hr2).
    rewrite forallb_app in Ht. apply andb_true_iff in Ht as [_ Hrest2].
    change ("."%char :: f ++ rest2) with (["."%char] ++ f ++ rest2).
    rewrite !count_points_app, (count_points_digits f Hf), !existsb_app,
      (existsb_digits f Hf).
    change (count_points ["."%char]) with 1.
    change (existsb is_digit ["."%char]) with false.
    cbn [Nat.add orb].
    destruct (rest_point rest2 Hrest2 Hr2) as [->|(t2 & -> & Ht2)].
    + rewrite (digitpart_digits f [] Hf I).
      cbn [count_points filter length existsb orb read_exponent].
      rewrite !orb_false_r.
      destruct i as [|c i], f as [|d f]; cbn; split;
        (eauto || discriminate || reflexivity).
    + rewrite (digitpart_digits f ("."%char :: t2) Hf)
        by (split; [reflexivity|discriminate]).
      rewrite read_exponent_point.
      change ("."%char :: t2) with (["."%char] ++ t2).
      rewrite count_points_app. change (count_points ["."%char]) with 1.
      cbn [Nat.add Nat.leb andb]. split; [discriminate|].
      intros _. now destruct (negb _).
Qed.

End NumberTexts.

Section MessageFacts.

Lemma mapM_ok_iff {A B} (f : A -> result B) (l : list A) :
  (exists bs, mapM f l = Ok bs) <-> Forall (fun a => exists b, f a = Ok b) l.
Proof.
  split.
  - intros [bs H]. revert bs H. induction l as [|a l IH]; intros bs H;
      [constructor|].
    cbn [mapM] in H. destruct (f a) as [b|] eqn:E; [|discriminate].
    cbn [bind] in H. destruct (mapM f l) as [bs'|]; [|discriminate].
    constructor; eauto.
  - intros H. apply mapM_total. intros a Ha.
    rewrite Forall_forall in H. now apply H.
Qed.

Lemma mapM_raise {A B} (f : A -> result B) (l : list A) (e : exn) :
  mapM f l = Raise e -> exists a, In a l /\ f a = Raise e.
Proof.
  induction l as [|a l IH]; cbn [mapM]; [discriminate|].
  destruct (f a) as [b|e'] eqn:E; cbn [bind].
  - destruct (mapM f l) as [bs|e'']; cbn [bind]; [discriminate|].
    intros [= <-]. destruct (IH eq_refl) as (x & Hx & Fx).
    exists x. split; [now right|assumption].
  - intros [= <-]. exists a. split; [now left|assumption].
Qed.

(** What the pattern of the findings matches. *)
Lemma match_worst_inv (s : str) (caps : list str) (rest : str) :
  match_here pat_worst [] [] s = Some (caps, rest) ->
  exists c1 c2 percent,
    caps = [[c1; c2]; percent]
    /\ is_word c1 = true /\ is_word c2 = true
    /\ percent <> [] /\ forallb is_digit_or_dot percent = true
    /\ s = ([c1; c2] ++ " (" ++ percent ++ "%)") ++ rest.
Proof.
  unfold pat_worst.
  cbn [lits map lit String.list_ascii_of_string app match_here].
  intros H.
  destruct s as [|c1 s]; [discriminate|].
  destruct (is_word c1) eqn:H1; [|discriminate].
  destruct s as [|c2 s]; [discriminate|].
  destruct (is_word c2) eqn:H2; [|discriminate].
  destruct s as [|sp s]; [discriminate|].
  destruct (ascii_dec " " sp) as [<-|]; [|discriminate].
  destruct s as [|pa s]; [discriminate|].
  destruct (ascii_dec "(" pa) as [<-|]; [|discriminate].
  destruct s as [|d s]; [discriminate|].
  destruct (is_digit_or_dot d) eqn:Hd; [|discriminate].
  apply star_inv in H as (t & b & -> & Ht & H).
  cbn [match_here] in H.
  destruct b as [|pc b]; [discriminate|].
  destruct (ascii_dec "%" pc) as [<-|]; [|discriminate].
  destruct b as [|cl b]; [discriminate|].
  destruct (ascii_dec ")" cl) as [<-|]; [|discriminate].
  rewrite firstn_diff2, firstn_diff_cons in H. injection H as <- <-.
  exists c1, c2, (d :: t). split; [reflexivity|].
  repeat split; try assumption; try discriminate.
  - cbn [forallb]. now rewrite Hd, Ht.
  - cbn [lit String.list_ascii_of_string app]. now rewrite <- app_assoc.
Qed.

Lemma findall_worst_groups (section : str) (g : list str) :
  In g (re_findall pat_worst section) ->
  forallb is_digit_or_dot (group g 2) = true.
Proof.
  unfold re_findall. rewrite in_flat_map. intros ([c|g'] & Hin & Hg);
    [destruct Hg|]. destruct Hg as [<-|[]].
  destruct (re_scan_pieces pat_worst section 0 g' Hin) as (b & rest & Hm).
  apply match_worst_inv in Hm as (c1 & c2 & p & -> & _ & _ & _ & Hp & _).
  exact Hp.
Qed.

Lemma finding_ok_iff (g : list str) :
  forallb is_digit_or_dot (group g 2) = true ->
  ((exists b, finding g = Ok b) <-> well_formed_number (group g 2) = true)
  /\ (forall e, finding g = Raise e ->
        well_formed_number (group g 2) = false /\ e = ValueError (group g 2)).
Proof.
  intros Hg. destruct (float_of_str_well_formed (group g 2) Hg) as [Hok Hbad].
  unfold finding. destruct (well_formed_number (group g 2)) eqn:W.
  - destruct (Hok eq_refl) as [x ->]. cbn [bind]. split.
    + split; eauto.
    + discriminate.
  - rewrite (Hbad eq_refl). cbn [bind]. split.
    + split; [intros [b H]; discriminate|discriminate].
    + intros e [= <-]. auto.
Qed.

(** ** Stripping *)

Lemma rstrip_by_prefix (f : ascii -> bool) (s : str) :
  exists w, s = rstrip_by f s ++ w.
Proof.
  induction s as [|c s [w IH]] using rev_ind; [now exists []|].
  destruct (f c) eqn:E.
  - rewrite rstrip_by_drop by assumption. exists (w ++ [c]).
    now rewrite app_assoc, <- IH.
  - rewrite rstrip_by_keep by assumption. exists []. now rewrite app_nil_r.
Qed.

Lemma rstrip_by_idem (f : ascii -> bool) (s : str) :
  rstrip_by f (rstrip_by f s) = rstrip_by f s.
Proof.
  destruct (rstrip_by_last f s) as [->|(a & c & -> & Hc)]; [reflexivity|].
  now apply rstrip_by_keep.
Qed.

Lemma lstrip_by_head (f : ascii -> bool) (s : str) :
  match lstrip_by f s with c :: _ => f c = false | [] => True end.
Proof.
  induction s as [|c s IH]; cbn [lstrip_by]; [exact I|].
  destruct (f c) eqn:E; [exact IH|exact E].
Qed.

(** Stripping twice is stripping once. *)
Lemma strip_by_idem (f : ascii -> bool) (s : str) :
  strip_by f (strip_by f s) = strip_by f s.
Proof.
  unfold strip_by.
  set (y := lstrip_by f s). pose proof (lstrip_by_head f s) as Hy. fold y in Hy.
  destruct (rstrip_by_prefix f y) as [w Hw].
  assert (Hz : match rstrip_by f y with c :: _ => f c = false | [] => True end).
  { destruct (rstrip_by f y) as [|c z] eqn:E; [exact I|].
    rewrite Hw in Hy. exact Hy. }
  rewrite (lstrip_by_id f (rstrip_by f y) Hz).
  apply rstrip_by_idem.
Qed.

End MessageFacts.

(** X1. With the marker in the message, [extract_worst_bigrams] returns
    exactly when every number the pattern matched in the section has at most
    one point and at least one digit; otherwise it raises the [ValueError] of
    [float] on such a matched text. *)
Theorem extract_worst_bigrams_raises_iff :
  forall message pre post,
    partition "Worst:" message = Some (pre, post) ->
    ((exists findings, extract_worst_bigrams message = Ok findings)
     <-> Forall (fun g => well_formed_number (group g 2) = true)
           (re_findall pat_worst (before ";" (before "Worst:" post))))
    /\ (forall e,
          extract_worst_bigrams message = Raise e ->
          exists g,
            In g (re_findall pat_worst (before ";" (before "Worst:" post)))
            /\ well_formed_number (group g 2) = false
            /\ e = ValueError (group g 2)).
Proof.
  intros message pre post P. rewrite (worst_section_eq message pre post P).
  set (section := before ";" (before "Worst:" post)). split.
  - rewrite mapM_ok_iff. rewrite !Forall_forall. split; intros H g Hg.
    + apply (finding_ok_iff g (findall_worst_groups section g Hg)), H, Hg.
    + apply (finding_ok_iff g (findall_worst_groups section g Hg)), H, Hg.
  - intros e H. apply mapM_raise in H as (g & Hg & He). exists g.
    split; [assumption|].
    now apply (finding_ok_iff g (findall_worst_groups section g Hg)).
Qed.

(** The message "Worst: ab (1.5%), cd (.%)" raises on its second match. *)
Lemma extract_worst_bigrams_raises_iff_witness :
  exists g,
    In g (re_findall pat_worst
            (before ";" (before "Worst:" " ab (1.5%), cd (.%)")))
    /\ well_formed_number (group g 2) = false
    /\ ValueError "." = ValueError (group g 2).
Proof.
  apply (proj2 (extract_worst_bigrams_raises_iff
                  "Worst: ab (1.5%), cd (.%)" [] " ab (1.5%), cd (.%)"
                  eq_refl)).
  reflexivity.
Defined.

(** X2. [clean_worst_message] never raises, whatever the message and the
    metric name, and what it returns has no white space at either end. *)
Theorem clean_worst_message_never_raises :
  forall message metric_name,
    exists r,
      clean_worst_message message metric_name = Ok r
      /\ strip r = r
      /\ match r with c :: _ => is_space c = false | [] => True end.
Proof.
  intros message metric_name. unfold clean_worst_message.
  destruct (remove_non_fixed_total message) as [m ->]. cbn [bind].
  destruct (round_numbers_total metric_name (remove_prefixes m)) as [r ->].
  cbn [bind]. exists (strip r). split; [reflexivity|]. split.
  - apply strip_by_idem.
  - unfold strip, strip_by.
    pose proof (lstrip_by_head is_space r) as Hy.
    destruct (rstrip_by_prefix is_space (lstrip_by is_space r)) as [w Hw].
    destruct (rstrip_by is_space (lstrip_by is_space r)) as [|c z]; [exact I|].
    rewrite Hw in Hy. exact Hy.
Qed.

(** X3. [format_frequencies] never raises, and a message without "freq: "
    is returned as it is. *)
Theorem format_frequencies_never_raises :
  (forall message, exists r, format_frequencies message = Ok r)
  /\ (forall message,
        contains "freq: " message = false ->
        format_frequencies message = Ok message).
Proof.
  split; [apply format_frequencies_total|].
  intros message H. apply re_sub_no_match. intros a b -> Hb.
  apply contains_suffix in H. rewrite pat_freq_eq, match_lits.
  apply contains_false in H. rewrite partition_eq in H.
  destruct (prefixb "freq: " b); [discriminate|reflexivity].
Qed.

(** A message without "freq: ". *)
Lemma format_frequencies_never_raises_witness :
  format_frequencies "Worst: th (4.32%)" = Ok (lit "Worst: th (4.32%)").
Proof.
  apply (proj2 format_frequencies_never_raises). reflexivity.
Defined.

(** X4. When the section holds findings, [add_frequencies] returns the text
    before the first "Worst:", then "Worst: " and the rewritten findings
    joined by ", ", then, when the message holds a ";" anywhere, ";" and
    everything after the first ";" of the message. Whatever else stood
    between the marker and that ";" is not kept. *)
Theorem add_frequencies_shape :
  forall message bigram_frequencies pre post finding findings,
    partition "Worst:" message = Some (pre, post) ->
    extract_worst_bigrams message = Ok (finding :: findings) ->
    add_frequencies message bigram_frequencies
    = Ok (pre ++ "Worst: "
            ++ join ", "
                 (map (enhanced_part bigram_frequencies) (finding :: findings))
            ++ match partition ";" message with
               | Some (_, after_semicolon) => ";" ++ after_semicolon
               | None => []
               end).
Proof.
  intros message fr pre post finding findings P E.
  unfold add_frequencies. rewrite E. cbn [bind is_nil orb].
  assert (C : contains "Worst:" message = true)
    by (apply contains_true; eauto).
  rewrite C. cbn [negb map is_nil].
  rewrite split_first. unfold before. rewrite P. cbn [bind].
  unfold contains, split1.
  destruct (partition ";" message) as [[a b]|]; cbn [index nth_error bind].
  - now rewrite <- !app_assoc.
  - now rewrite app_nil_r.
Qed.

(** The shape of the enriched "Cost 3; Worst: th (4.32%), he (3.1%) and
    more". *)
Lemma add_frequencies_shape_witness :
  add_frequencies "Cost 3; Worst: th (4.32%), he (3.1%) and more" []
  = Ok (lit "Cost 3; " ++ "Worst: "
          ++ join ", "
               (map (enhanced_part [])
                  [(lit "th", decimal_value "4" "32");
                   (lit "he", decimal_value "3" "1")])
          ++ match partition ";"
                     "Cost 3; Worst: th (4.32%), he (3.1%) and more" with
             | Some (_, after_semicolon) => ";" ++ after_semicolon
             | None => []
             end).
Proof.
  apply (add_frequencies_shape _ [] "Cost 3; "
           " th (4.32%), he (3.1%) and more").
  - reflexivity.
  - vm_compute. reflexivity.
Defined.

(** X5. [add_frequencies] returns the message as it is, whatever the table,
    when the message has no "Worst:" and when its section holds no match of
    the pattern. *)
Theorem add_frequencies_unchanged :
  (forall message bigram_frequencies,
     contains "Worst:" message = false ->
     add_frequencies message bigram_frequencies = Ok message)
  /\ (forall message pre post bigram_frequencies,
        partition "Worst:" message = Some (pre, post) ->
        re_findall pat_worst (before ";" (before "Worst:" post)) = [] ->
        add_frequencies message bigram_frequencies = Ok message).
Proof.
  split.
  - apply add_frequencies_no_marker.
  - intros message pre post fr. apply add_frequencies_no_match.
Qed.

(** A message with the marker and no finding after it. *)
Lemma add_frequencies_unchanged_witness :
  add_frequencies "Worst: none" [(lit "th", decimal_value "4" "5")]
  = Ok (lit "Worst: none").
Proof.
  apply (proj2 add_frequencies_unchanged _ [] " none"); reflexivity.
Defined.

(** X6. [clean_worst_message] ignores everything from the first
    ";  Worst non-fixed:" on: the marker and what follows it change
    nothing. *)
Theorem clean_worst_message_drops_non_fixed :
  forall a b metric_name,
    contains ";  Worst non-fixed:" a = false ->
    clean_worst_message (a ++ ";  Worst non-fixed:" ++ b) metric_name
    = clean_worst_message a metric_name.
Proof.
  intros a b metric_name H. unfold clean_worst_message, remove_non_fixed.
  rewrite contains_app, H, split_first. unfold before.
  apply contains_false in H.
  rewrite (partition_border_free ";  Worst non-fixed:" a b); [reflexivity| |assumption].
  vm_compute. reflexivity.
Qed.

(** The text after the marker is dropped. *)
Lemma clean_worst_message_drops_non_fixed_witness :
  clean_worst_message ("Worst: th (4.32%)" ++ ";  Worst non-fixed:" ++ " he")
    "Scissoring"
  = clean_worst_message "Worst: th (4.32%)" "Scissoring".
Proof.
  apply clean_worst_message_drops_non_fixed. reflexivity.
Defined.

Section Metrics.

Lemma extract_worst_bigrams_error (message : str) (e : exn) :
  extract_worst_bigrams message = Raise e -> rejected_number e.
Proof.
  destruct (partition "Worst:" message) as [[pre post]|] eqn:P.
  - rewrite (worst_section_eq message pre post P). intros H.
    apply mapM_raise in H as (g & Hg & He).
    pose proof (findall_worst_groups _ g Hg) as Hd.
    destruct (proj2 (finding_ok_iff g Hd) e He) as [W ->].
    exists (group g 2). auto.
  - apply contains_false in P. unfold extract_worst_bigrams. rewrite P.
    discriminate.
Qed.

(** [add_frequencies] raises what the extraction raises and nothing else. *)
Lemma add_frequencies_error (message : str) (bigram_frequencies : dict float)
  (e : exn) :
  add_frequencies message bigram_frequencies = Raise e
  <-> extract_worst_bigrams message = Raise e.
Proof.
  unfold add_frequencies.
  destruct (extract_worst_bigrams message) as [l|e'] eqn:E; cbn [bind];
    [|split; intros [= <-]; reflexivity].
  split; [|discriminate]. intros H. exfalso.
  destruct (is_nil l || negb (contains "Worst:" message)) eqn:C;
    [discriminate|].
  apply orb_false_iff in C as [Hl C]. apply negb_false_iff in C.
  destruct (is_nil (map (enhanced_part bigram_frequencies) l));
    [discriminate|].
  rewrite split_first in H. cbn [bind] in H.
  unfold contains, split1 in H.
  destruct (partition ";" message) as [[a b]|]; discriminate.
Qed.

Lemma stored_message_error (bigram_frequencies : dict float)
  (metric_cost : MetricCost) (e : exn) :
  stored_message bigram_frequencies metric_cost = Raise e ->
  in_list (core_name metric_cost) [lit "Scissoring"; lit "Cluster Rolls"]
  = true
  /\ bigram_frequencies <> []
  /\ extract_worst_bigrams (core_message metric_cost) = Raise e.
Proof.
  unfold stored_message.
  destruct (in_list (core_name metric_cost) _); cbn [andb]; [|discriminate].
  destruct bigram_frequencies as [|x t]; cbn [is_nil negb]; [discriminate|].
  destruct (add_frequencies (core_message metric_cost) (x :: t)) as [m|e']
    eqn:E; cbn [bind].
  - destruct (format_frequencies_total m) as [r ->]. discriminate.
  - intros [= <-]. apply add_frequencies_error in E.
    split; [reflexivity|]. split; [discriminate|assumption].
Qed.

Lemma process_metric_cost_eq (bigram_frequencies : dict float)
  (metrics_data : dict metric) (metric_cost : MetricCost) :
  process_metric_cost bigram_frequencies metrics_data metric_cost
  = do message <- stored_message bigram_frequencies metric_cost;
    Ok (dict_set metrics_data (core_name metric_cost)
          (Metric (weighted_cost metric_cost) message)).
Proof. reflexivity. Qed.

(** The loop over the metric costs from a dictionary [d0]. *)
Lemma metrics_loop (bigram_frequencies : dict float) (l : list MetricCost)
  (d0 d : dict metric) :
  foldM (process_metric_cost bigram_frequencies) l d0 = Ok d ->
  forall name,
    match last_metric name l with
    | Some mc =>
        exists msg,
          stored_message bigram_frequencies mc = Ok msg
          /\ dict_get d name = Some (Metric (weighted_cost mc) msg)
    | None => dict_get d name = dict_get d0 name
    end.
Proof.
  revert d0. induction l as [|m l IH]; intros d0 H name.
  - cbn [foldM] in H. injection H as <-. reflexivity.
  - cbn [foldM] in H. rewrite process_metric_cost_eq in H.
    destruct (stored_message bigram_frequencies m) as [msg|] eqn:E;
      [|discriminate]. cbn [bind] in H.
    specialize (IH _ H name). cbn [last_metric].
    destruct (last_metric name l) as [mc|]; [exact IH|].
    destruct (str_eqb name (core_name m)) eqn:N.
    + apply str_eqb_eq in N. subst name. exists msg. split; [assumption|].
      rewrite IH. apply dict_get_set_same.
    + rewrite IH. apply dict_get_set_other. now apply str_eqb_neq.
Qed.

Lemma metrics_loop_error (bigram_frequencies : dict float)
  (l : list MetricCost) (d0 : dict metric) (e : exn) :
  foldM (process_metric_cost bigram_frequencies) l d0 = Raise e ->
  exists mc, In mc l /\ stored_message bigram_frequencies mc = Raise e.
Proof.
  revert d0. induction l as [|m l IH]; intros d0 H; [discriminate|].
  cbn [foldM] in H. rewrite process_metric_cost_eq in H.
  destruct (stored_message bigram_frequencies m) as [msg|e'] eqn:E;
    cbn [bind] in H.
  - destruct (IH _ H) as (mc & Hin & Hmc). exists mc.
    split; [now right|assumption].
  - injection H as <-. exists m. split; [now left|assumption].
Qed.

Lemma metrics_loop_no_table (l : list MetricCost) (d0 : dict metric) :
  exists d, foldM (process_metric_cost []) l d0 = Ok d.
Proof.
  revert d0. induction l as [|m l IH]; intros d0; cbn [foldM]; [eauto|].
  rewrite process_metric_cost_no_table. cbn [bind]. apply IH.
Qed.

End Metrics.

(** X7. When a name occurs on several metric costs of a layout, the last one
    in reading order gives both the stored cost and the stored message; a
    name on no metric cost is not a key. Without a frequency table the loop
    never raises and every message is stored as it is. With a table it can
    raise, and then what it raises is the [ValueError] of [float] on a number
    text of a "Scissoring" or "Cluster Rolls" message. *)
Theorem process_layout_metrics_last_wins :
  (forall raw bigram_frequencies metrics_data,
     process_layout_metrics raw bigram_frequencies = Ok metrics_data ->
     forall name,
       match last_metric name (all_metric_costs raw) with
       | Some mc =>
           exists msg,
             stored_message bigram_frequencies mc = Ok msg
             /\ dict_get metrics_data name
                = Some (Metric (weighted_cost mc) msg)
       | None => dict_get metrics_data name = None
       end)
  /\ (forall raw,
        exists metrics_data,
          process_layout_metrics raw [] = Ok metrics_data
          /\ forall name,
               dict_get metrics_data name
               = option_map
                   (fun mc => Metric (weighted_cost mc) (core_message mc))
                   (last_metric name (all_metric_costs raw)))
  /\ (forall raw bigram_frequencies e,
        process_layout_metrics raw bigram_frequencies = Raise e ->
        rejected_number e
        /\ exists mc,
             In mc (all_metric_costs raw)
             /\ in_list (core_name mc) [lit "Scissoring"; lit "Cluster Rolls"]
                = true
             /\ extract_worst_bigrams (core_message mc) = Raise e).
Proof.
  split; [|split].
  - intros raw fr d H name.
    exact (metrics_loop fr (all_metric_costs raw) [] d H name).
  - intros raw. destruct (metrics_loop_no_table (all_metric_costs raw) [])
      as [d Hd].
    exists d. split; [exact Hd|]. intros name.
    pose proof (metrics_loop [] (all_metric_costs raw) [] d Hd name) as H.
    destruct (last_metric name (all_metric_costs raw)) as [mc|];
      cbn [option_map]; [|exact H].
    destruct H as (msg & Hm & ->). unfold stored_message in Hm.
    cbn [is_nil negb] in Hm. rewrite andb_false_r in Hm.
    now injection Hm as <-.
  - intros raw fr e H.
    apply metrics_loop_error in H as (mc & Hin & Hmc).
    apply stored_message_error in Hmc as (Hn & _ & He).
    split; [exact (extract_worst_bigrams_error _ e He)|].
    exists mc. auto.
Qed.

(** Two metric costs named "Key Costs": the second one is stored. *)
Lemma process_layout_metrics_last_wins_witness :
  match last_metric "Key Costs"
          (all_metric_costs
             (Build_RawResult (NInt 7) "qwerty"
                [Build_IndividualResult
                   [Build_MetricCost "Key Costs" "first" (NInt 1)];
                 Build_IndividualResult
                   [Build_MetricCost "Key Costs" "second" (NInt 2)]])) with
  | Some mc =>
      exists msg,
        stored_message [] mc = Ok msg
        /\ dict_get
             [(lit "Key Costs", Metric (NInt 2) "second")] "Key Costs"
           = Some (Metric (weighted_cost mc) msg)
  | None =>
      dict_get [(lit "Key Costs", Metric (NInt 2) "second")] "Key Costs"
      = None
  end.
Proof.
  apply (proj1 process_layout_metrics_last_wins
           (Build_RawResult (NInt 7) "qwerty"
              [Build_IndividualResult
                 [Build_MetricCost "Key Costs" "first" (NInt 1)];
               Build_IndividualResult
                 [Build_MetricCost "Key Costs" "second" (NInt 2)]]) []).
  reflexivity.
Defined.

Section RowCells.

(** Every column of the row holds the cell [build_cell] makes for it. *)
Lemma build_layout_row_cells (layout : str) (total_cost : num)
  (metrics_data : dict metric) (r : row) (c : column) :
  build_layout_row layout total_cost metrics_data = Ok r ->
  In c METRICS_ORDER ->
  exists v,
    dict_get r (display_header c) = Some v
    /\ build_cell total_cost metrics_data c = Ok v.
Proof.
  intros Hr0 Hc.
  destruct (row_loop total_cost metrics_data METRICS_ORDER
              [(lit "Layout", CStr layout)])
    as (r' & Hr & Kr & Gr & Cr); [exact column_headers_distinct|].
  assert (E0 : Ok r' = Ok r) by (rewrite <- Hr; exact Hr0).
  injection E0 as <-. specialize (Cr c Hc).
  destruct (build_cell_total total_cost metrics_data c) as [v Hv].
  rewrite Hv in Cr. injection Cr as Cr.
  destruct (dict_get r' (display_header c)) as [v'|] eqn:E.
  - subst v'. eauto.
  - exfalso. assert (H : In (display_header c) (dict_keys r')).
    { rewrite Kr. apply in_or_app. right. now apply in_map. }
    clear - E H. induction r' as [|[k v] r IH]; [destruct H|].
    cbn [dict_get] in E. destruct (str_eqb (display_header c) k) eqn:Ek;
      [discriminate|]. destruct H as [H|H].
    + cbn in H. subst. now rewrite str_eqb_refl in Ek.
    + auto.
Qed.

Lemma dict_item_keys {V} (d : dict V) (k : str) :
  In k (dict_keys d) -> exists v, dict_item d k = Ok v.
Proof.
  unfold dict_item. induction d as [|[k' v'] d IH]; intros H; [destruct H|].
  cbn [dict_get]. destruct (str_eqb k k') eqn:E; [eauto|].
  destruct H as [H|H]; [|auto]. cbn in H. subst.
  now rewrite str_eqb_refl in E.
Qed.

Lemma mapM_length {A B} (f : A -> result B) (l : list A) (r : list B) :
  mapM f l = Ok r -> length r = length l.
Proof.
  intros H. apply (mapM_Forall2 f (fun _ _ => True)) in H; [|auto].
  symmetry. exact (Forall2_length H).
Qed.

Lemma sorted_length {A} (key : A -> num) (l : list A) :
  length (sorted l key) = length l.
Proof. symmetry. apply Permutation_length, sorted_perm. Qed.

(** A record with the thirteen keys gives a line of thirteen cells. *)
Lemma csv_cells (rec : row) :
  dict_keys rec = COLUMN_HEADERS ->
  exists cells,
    mapM (dict_item rec) COLUMN_HEADERS = Ok cells /\ length cells = 13.
Proof.
  intros K.
  destruct (mapM_total (dict_item rec) COLUMN_HEADERS) as [cells H].
  { intros k Hk. apply dict_item_keys. now rewrite K. }
  exists cells. split; [assumption|]. now rewrite (mapM_length _ _ _ H).
Qed.

Lemma layout_records_keys (data : list RawResult)
  (bigram_frequencies : dict float) (records : list row) :
  layout_records data bigram_frequencies = Ok records ->
  Forall (fun r => dict_keys r = COLUMN_HEADERS) records.
Proof.
  intros H. unfold layout_records in H.
  refine (mapM_Forall _ _ _ _ _ H). intros raw r Hr.
  destruct (process_layout_metrics raw bigram_frequencies) as [md|];
    [|discriminate]. cbn [bind] in Hr.
  destruct (build_layout_row_columns (layout raw) (total_cost raw) md)
    as (r' & Hr' & Kr' & _).
  rewrite Hr' in Hr. now injection Hr as <-.
Qed.

Lemma layout_records_error (data : list RawResult)
  (bigram_frequencies : dict float) (e : exn) :
  layout_records data bigram_frequencies = Raise e ->
  exists raw,
    In raw data /\ process_layout_metrics raw bigram_frequencies = Raise e.
Proof.
  unfold layout_records. intros H.
  apply mapM_raise in H as (raw & Hin & H). exists raw. split.
  - eapply Permutation_in; [symmetry; apply sorted_perm|exact Hin].
  - destruct (process_layout_metrics raw bigram_frequencies) as [md|e'];
      cbn [bind] in H; [|injection H as <-; reflexivity].
    destruct (build_layout_row_columns (layout raw) (total_cost raw) md)
      as (r' & Hr' & _). rewrite Hr' in H. discriminate.
Qed.

Lemma layout_records_length (data : list RawResult)
  (bigram_frequencies : dict float) (records : list row) :
  layout_records data bigram_frequencies = Ok records ->
  length records = length data.
Proof.
  intros H. unfold layout_records in H.
  rewrite (mapM_length _ _ _ H). apply sorted_length.
Qed.

End RowCells.

(** X8. In the row of a layout, a column other than "Total Cost" whose metric
    is stored holds, for a number column, the stored cost rounded to the
    decimals of the column, and for a message or worst column, the stored
    message cleaned for that metric, which always exists. *)
Theorem build_layout_row_present_metric :
  forall layout total_cost metrics_data r c m,
    build_layout_row layout total_cost metrics_data = Ok r ->
    In c METRICS_ORDER ->
    display_header c <> lit "Total Cost" ->
    dict_get metrics_data (metric_name c) = Some m ->
    match format c with
    | number decimals =>
        dict_get r (display_header c) = Some (CNum (round (cost m) decimals))
    | _ =>
        exists text,
          clean_worst_message (message m) (metric_name c) = Ok text
          /\ dict_get r (display_header c) = Some (CStr text)
    end.
Proof.
  intros layout total_cost metrics_data r c m Hr Hc Hn Hm.
  destruct (build_layout_row_cells layout total_cost metrics_data r c Hr Hc)
    as (v & Hv & Hb).
  apply str_eqb_neq in Hn. unfold build_cell in Hb. rewrite Hm in Hb.
  destruct (clean_worst_message_total (message m) (metric_name c))
    as [text Ht].
  destruct (format c) as [decimals| |].
  - rewrite Hn in Hb. now injection Hb as <-.
  - rewrite Ht in Hb. cbn [bind] in Hb. injection Hb as <-. eauto.
  - rewrite Ht in Hb. cbn [bind] in Hb. injection Hb as <-. eauto.
Qed.

(** The "Key Costs" cell of a layout whose key costs are 12.345. *)
Lemma build_layout_row_present_metric_witness :
  dict_get
    [(lit "Layout", CStr "qwerty"); (lit "Total Cost", CNum (NInt 7));
     (lit "Hands Disbalance", CStr ""); (lit "Finger Disbalance", CStr "");
     (lit "Cluster Rolls", CStr ""); (lit "Scissoring", CStr "");
     (lit "Key Costs", CNum (NFloat (decimal_value "12" "35")));
     (lit "Movement Pattern", CStr "");
     (lit "Cluster Rolls Worst", CStr ""); (lit "Scissoring Worst", CStr "");
     (lit "Movement Pattern Worst", CStr "");
     (lit "Secondary Bigrams Worst", CStr "");
     (lit "Trigrams Worst", CStr "")] "Key Costs"
  = Some (CNum (round (NFloat (decimal_value "12" "345")) 2)).
Proof.
  apply (build_layout_row_present_metric "qwerty" (NInt 7)
           [(lit "Key Costs", Metric (NFloat (decimal_value "12" "345")) "")]
           _ (Column "Key Costs" "Key Costs" (number 2))
           (Metric (NFloat (decimal_value "12" "345")) "")).
  - vm_compute. reflexivity.
  - vm_compute. tauto.
  - discriminate.
  - reflexivity.
Defined.

(** X9. Without a frequency table the records of a results list are always
    built, one per result. With a table the only exception is the
    [ValueError] of [float] on a number text of a message, and a list that
    gives records gives one per result. *)
Theorem layout_records_errors :
  (forall data,
     exists records,
       layout_records data [] = Ok records
       /\ length records = length data)
  /\ (forall data bigram_frequencies records,
        layout_records data bigram_frequencies = Ok records ->
        length records = length data)
  /\ (forall data bigram_frequencies e,
        layout_records data bigram_frequencies = Raise e ->
        rejected_number e /\ bigram_frequencies <> []).
Proof.
  pose proof layout_records_length as L.
  assert (E : forall data bigram_frequencies e,
             layout_records data bigram_frequencies = Raise e ->
             rejected_number e /\ bigram_frequencies <> []).
  { intros data fr e H.
    apply layout_records_error in H as (raw & _ & H).
    apply metrics_loop_error in H as (mc & _ & H).
    apply stored_message_error in H as (_ & Hfr & H).
    split; [exact (extract_worst_bigrams_error _ e H)|exact Hfr]. }
  split; [|split; assumption].
  intros data. destruct (layout_records data []) as [records|e] eqn:H.
  - exists records. split; [reflexivity|]. exact (L data [] records H).
  - exfalso. destruct (E data [] e H) as [_ N]. now apply N.
Qed.

(** A "Scissoring" message with the number text "1.2.3" and a table. *)
Lemma layout_records_errors_witness :
  rejected_number (ValueError "1.2.3")
  /\ [(lit "th", decimal_value "4" "5")] <> [].
Proof.
  apply (proj2 (proj2 layout_records_errors)
           [Build_RawResult (NInt 7) "qwerty"
              [Build_IndividualResult
                 [Build_MetricCost "Scissoring" "Worst: ab (1.2.3%)"
                    (NInt 1)]]]).
  vm_compute. reflexivity.
Defined.

(** X10. The records of a results list always go through the CSV export
    without a [KeyError]: the rows are the header and one line per result,
    each of thirteen cells. *)
Theorem csv_rows_of_records :
  forall data bigram_frequencies records,
    layout_records data bigram_frequencies = Ok records ->
    exists body,
      csv_rows records = Ok (map CStr COLUMN_HEADERS :: body)
      /\ length body = length data
      /\ Forall (fun cells => length cells = 13) body.
Proof.
  intros data fr records H.
  pose proof (layout_records_keys data fr records H) as K.
  unfold csv_rows.
  destruct (mapM_total (fun rec => mapM (dict_item rec) COLUMN_HEADERS)
              records) as [body Hb].
  { intros rec Hin. rewrite Forall_forall in K.
    destruct (csv_cells rec (K rec Hin)) as (cells & Hc & _). eauto. }
  rewrite Hb. cbn [bind]. exists body. split; [reflexivity|]. split.
  - rewrite (mapM_length _ _ _ Hb).
    exact (layout_records_length data fr records H).
  - refine (mapM_Forall _ _ _ _ _ Hb). intros rec cells Hc.
    rewrite (mapM_length _ _ _ Hc). reflexivity.
Qed.

(** The rows of a file with one layout. *)
Lemma csv_rows_of_records_witness :
  exists body,
    csv_rows
      [[(lit "Layout", CStr "qwerty"); (lit "Total Cost", CNum (NInt 7));
        (lit "Hands Disbalance", CStr ""); (lit "Finger Disbalance", CStr "");
        (lit "Cluster Rolls", CStr ""); (lit "Scissoring", CStr "");
        (lit "Key Costs", CStr ""); (lit "Movement Pattern", CStr "");
        (lit "Cluster Rolls Worst", CStr ""); (lit "Scissoring Worst", CStr "");
        (lit "Movement Pattern Worst", CStr "");
        (lit "Secondary Bigrams Worst", CStr "");
        (lit "Trigrams Worst", CStr "")]]
    = Ok (map CStr COLUMN_HEADERS :: body)
    /\ length body = length [Build_RawResult (NInt 7) "qwerty" []]
    /\ Forall (fun cells => length cells = 13) body.
Proof.
  apply (csv_rows_of_records [Build_RawResult (NInt 7) "qwerty" []] []).
  vm_compute. reflexivity.
Defined.

(* ================================================================== *)
(** * The sections of the text log and the diagram *)
(* ================================================================== *)

Section Sections.

Lemma join_cons (sep p : str) (parts : list str) :
  parts <> [] -> join sep (p :: parts) = p ++ sep ++ join sep parts.
Proof. destruct parts; [congruence|reflexivity]. Qed.

Lemma join_app (sep : str) (a b : list str) :
  a <> [] -> b <> [] ->
  join sep (a ++ b) = join sep a ++ sep ++ join sep b.
Proof.
  intros Ha Hb. induction a as [|p a IH]; [congruence|].
  destruct a as [|q a].
  - cbn [app]. now rewrite join_cons.
  - change ((p :: q :: a) ++ b) with (p :: (q :: a) ++ b).
    rewrite join_cons by discriminate. rewrite IH by discriminate.
    rewrite (join_cons sep p (q :: a)) by discriminate.
    now rewrite <- !app_assoc.
Qed.

Lemma concat_nonempty {X} (groups : list (list X)) :
  groups <> [] -> Forall (fun g => g <> []) groups -> concat groups <> [].
Proof.
  destruct groups as [|g groups]; [congruence|]. intros _ H.
  inversion H as [|? ? Hg _]. subst. cbn [concat].
  destruct g; [congruence|discriminate].
Qed.

(** Joining the joined groups is joining all the lines. *)
Lemma join_concat (sep : str) (groups : list (list str)) :
  Forall (fun g => g <> []) groups ->
  join sep (map (join sep) groups) = join sep (concat groups).
Proof.
  induction groups as [|g groups IH]; intros H; [reflexivity|].
  inversion H as [|? ? Hg Hgs]. subst. cbn [map concat].
  destruct groups as [|g' groups].
  - cbn [map concat join]. now rewrite app_nil_r.
  - rewrite join_cons by discriminate. rewrite IH by assumption.
    rewrite join_app; [reflexivity|assumption|].
    apply concat_nonempty; [discriminate|assumption].
Qed.

Lemma split_fuel_nonempty (n : nat) (sep s : str) : split_fuel n sep s <> [].
Proof.
  destruct n; cbn [split_fuel]; [discriminate|].
  destruct (partition sep s) as [[a b]|]; discriminate.
Qed.

(** [sep.join(s.split(sep))] is [s]. *)
Lemma join_split (sep s : str) : join sep (split sep s) = s.
Proof.
  unfold split. generalize (S (length s)) as n. intros n. revert s.
  induction n as [|n IH]; intros s; cbn [split_fuel]; [reflexivity|].
  destruct (partition sep s) as [[a b]|] eqn:E; [|reflexivity].
  rewrite join_cons by apply split_fuel_nonempty.
  rewrite IH. symmetry. now apply partition_spec.
Qed.

Lemma prefixb_app_r (p x y : str) :
  prefixb p x = true -> prefixb p (x ++ y) = true.
Proof.
  intros H. rewrite (prefixb_spec p x H), <- app_assoc. apply prefixb_app.
Qed.

Lemma join_starts (sep p : str) (g : list str) :
  startswith (hd [] g) p = true -> startswith (join sep g) p = true.
Proof.
  unfold startswith. destruct g as [|l [|l' g]]; cbn [hd join]; trivial.
  apply prefixb_app_r.
Qed.

(** The loop from a current group that is not empty. *)
Lemma sections_loop (lines : list str) (sections : list str)
  (current : list str) :
  current <> [] ->
  exists sections' current',
    fold_left section_step lines (sections, current) = (sections', current')
    /\ current' <> []
    /\ sections' ++ [join newline current']
       = sections ++ map (join newline) (line_groups current lines).
Proof.
  revert sections current. induction lines as [|line lines IH];
    intros sections current Hc.
  - exists sections, current. cbn [fold_left line_groups map]. auto.
  - cbn [fold_left line_groups]. unfold section_step at 2.
    destruct current as [|c0 current]; [congruence|]. cbn [is_nil negb].
    rewrite andb_true_r.
    destruct (startswith line "Layout (layer 1):").
    + destruct (IH (sections ++ [join newline (c0 :: current)]) [line])
        as (s' & c' & Hf & Hn & He); [discriminate|].
      exists s', c'. split; [exact Hf|]. split; [exact Hn|].
      rewrite He, <- app_assoc. reflexivity.
    + destruct (IH sections ((c0 :: current) ++ [line]))
        as (s' & c' & Hf & Hn & He); [discriminate|].
      exists s', c'. auto.
Qed.

Lemma layout_sections_groups (content : str) :
  exists line lines,
    split newline content = line :: lines
    /\ layout_sections_of content
       = map (join newline) (line_groups [line] lines).
Proof.
  unfold layout_sections_of.
  destruct (split newline content) as [|line lines] eqn:E.
  - exfalso. revert E. apply split_fuel_nonempty.
  - exists line, lines. split; [reflexivity|].
    cbn [fold_left]. unfold section_step at 2. cbn [is_nil negb].
    rewrite andb_false_r. cbn [app].
    destruct (sections_loop lines [] [line]) as (s' & c' & Hf & Hn & He);
      [discriminate|].
    rewrite Hf. destruct c' as [|x c']; [congruence|]. cbn [is_nil].
    exact He.
Qed.

Lemma line_groups_concat (current lines : list str) :
  concat (line_groups current lines) = current ++ lines.
Proof.
  revert current. induction lines as [|line lines IH]; intros current;
    cbn [line_groups].
  - cbn [concat]. reflexivity.
  - destruct (startswith line "Layout (layer 1):").
    + cbn [concat]. now rewrite IH.
    + now rewrite IH, <- app_assoc.
Qed.

Lemma line_groups_nonempty (current lines : list str) :
  current <> [] -> Forall (fun g => g <> []) (line_groups current lines).
Proof.
  revert current. induction lines as [|line lines IH]; intros current Hc;
    cbn [line_groups].
  - now constructor.
  - destruct (startswith line "Layout (layer 1):").
    + constructor; [assumption|]. apply IH. discriminate.
    + apply IH. destruct current; discriminate.
Qed.

Lemma line_groups_heads (current lines : list str) :
  current <> [] ->
  Forall (fun g => startswith (hd [] g) "Layout (layer 1):" = true)
    (tl (line_groups current lines))
  /\ (startswith (hd [] current) "Layout (layer 1):" = true ->
      Forall (fun g => startswith (hd [] g) "Layout (layer 1):" = true)
        (line_groups current lines)).
Proof.
  revert current. induction lines as [|line lines IH]; intros current Hc;
    cbn [line_groups].
  - split; [constructor|]. intros H. now constructor.
  - destruct (startswith line "Layout (layer 1):") eqn:E.
    + destruct (IH [line]) as [_ H]; [discriminate|]. cbn [tl]. split.
      * now apply H.
      * intros Hh. constructor; [assumption|now apply H].
    + destruct (IH (current ++ [line])) as [H1 H2];
        [destruct current; discriminate|].
      split; [assumption|]. intros Hh. apply H2.
      destruct current; [congruence|exact Hh].
Qed.

Lemma line_groups_tails (current lines : list str) :
  Forall (fun l => startswith l "Layout (layer 1):" = false) (tl current) ->
  current <> [] ->
  Forall
    (fun g =>
       Forall (fun l => startswith l "Layout (layer 1):" = false) (tl g))
    (line_groups current lines).
Proof.
  revert current. induction lines as [|line lines IH]; intros current H Hc;
    cbn [line_groups].
  - now constructor.
  - destruct (startswith line "Layout (layer 1):") eqn:E.
    + constructor; [assumption|]. apply IH; [constructor|discriminate].
    + apply IH; [|destruct current; discriminate].
      destruct current as [|c0 current]; [congruence|]. cbn [app tl] in *.
      apply Forall_app. split; [assumption|]. now constructor.
Qed.

(** ** The lines of a diagram *)

Lemma diagram_body_lines (lines : list str) (line : str) :
  In line (diagram_body lines) ->
  In line lines /\ strip line <> []
  /\ contains "Layout string" line = false.
Proof.
  induction lines as [|l lines IH]; cbn [diagram_body]; [intros []|].
  destruct (contains "Layout string" l) eqn:C; [intros []|].
  destruct (strip l) as [|c s] eqn:S; cbn [is_nil].
  - intros H. destruct (IH H) as (H1 & H2). split; [now right|assumption].
  - intros [<-|H].
    + split; [now left|]. split; [now rewrite S|assumption].
    + destruct (IH H) as (H1 & H2). split; [now right|assumption].
Qed.

Lemma after_marker_lines (lines rest : list str) :
  after_marker lines = Some rest ->
  exists before line,
    lines = before ++ line :: rest
    /\ contains "Layout (layer 1):" line = true
    /\ Forall (fun l => contains "Layout (layer 1):" l = false) before.
Proof.
  revert rest. induction lines as [|l lines IH]; intros rest;
    cbn [after_marker]; [discriminate|].
  destruct (contains "Layout (layer 1):" l) eqn:C.
  - intros [= <-]. exists [], l. auto.
  - intros H. destruct (IH rest H) as (b & line & -> & Hl & Hb).
    exists (l :: b), line. split; [reflexivity|]. split; [assumption|].
    now constructor.
Qed.

Lemma after_marker_none (lines : list str) :
  Forall (fun l => contains "Layout (layer 1):" l = false) lines ->
  after_marker lines = None.
Proof.
  induction 1 as [|l lines Hl _ IH]; cbn [after_marker]; [reflexivity|].
  now rewrite Hl.
Qed.

End Sections.

(** X11. The loop of [parse_diagrams] cuts the lines of the text log into
    consecutive groups and joins each group into a section: nothing is lost,
    so the sections joined by a line end give the text back; no group is
    empty; every group after the first begins with a line that starts with
    "Layout (layer 1):", and no other line of a group starts with it. *)
Theorem layout_sections_partition :
  forall content,
    exists groups,
      layout_sections_of content = map (join newline) groups
      /\ concat groups = split newline content
      /\ Forall (fun g => g <> []) groups
      /\ Forall (fun g => startswith (hd [] g) "Layout (layer 1):" = true)
           (tl groups)
      /\ Forall
           (fun g =>
              Forall (fun l => startswith l "Layout (layer 1):" = false)
                (tl g))
           groups
      /\ join newline (layout_sections_of content) = content
      /\ Forall (fun s => startswith s "Layout (layer 1):" = true)
           (tl (layout_sections_of content)).
Proof.
  intros content.
  destruct (layout_sections_groups content) as (line & lines & Hs & Hg).
  exists (line_groups [line] lines).
  pose proof (line_groups_nonempty [line] lines) as N.
  pose proof (line_groups_concat [line] lines) as C.
  destruct (line_groups_heads [line] lines) as [Hh _]; [discriminate|].
  split; [exact Hg|]. split; [now rewrite C, Hs|].
  split; [apply N; discriminate|]. split; [exact Hh|].
  split; [apply line_groups_tails; [constructor|discriminate]|]. split.
  - rewrite Hg, join_concat by (apply N; discriminate).
    rewrite C. change ([line] ++ lines) with (line :: lines).
    rewrite <- Hs. apply join_split.
  - rewrite Hg. destruct (line_groups [line] lines) as [|g groups];
      [constructor|]. cbn [map tl] in *.
    rewrite Forall_map. revert Hh. apply Forall_impl. intros g'.
    apply join_starts.
Qed.

(** X12. [parse_layout_diagram] gives no line when no line of the text holds
    "Layout (layer 1):". Every line it gives is a line of the text that comes
    after the first line holding the marker, is not blank and does not hold
    "Layout string". *)
Theorem parse_layout_diagram_lines :
  (forall text,
     Forall (fun l => contains "Layout (layer 1):" l = false)
       (split newline text) ->
     parse_layout_diagram text = [])
  /\ (forall text line,
        In line (parse_layout_diagram text) ->
        strip line <> []
        /\ contains "Layout string" line = false
        /\ exists before first rest,
             split newline text = before ++ first :: rest
             /\ contains "Layout (layer 1):" first = true
             /\ Forall (fun l => contains "Layout (layer 1):" l = false)
                  before
             /\ In line rest).
Proof.
  split.
  - intros text H. unfold parse_layout_diagram.
    now rewrite after_marker_none.
  - intros text line. unfold parse_layout_diagram.
    destruct (after_marker (split newline text)) as [rest|] eqn:E;
      [|intros []].
    intros H. apply diagram_body_lines in H as (Hin & Hs & Hc).
    split; [assumption|]. split; [assumption|].
    apply after_marker_lines in E as (b & first & E & Hf & Hb).
    exists b, first, rest. auto.
Qed.

(** A text without the marker has no diagram. *)
Lemma parse_layout_diagram_lines_witness :
  parse_layout_diagram ("a b c" ++ newline ++ "d e f") = [].
Proof.
  apply (proj1 parse_layout_diagram_lines).
  vm_compute. repeat constructor.
Defined.

Section LayoutString.

(** The scan for a pattern that begins with the literal [l] passes over the
    text before the first occurrence of [l]. *)
Lemma re_findall_first (l : str) (r : regex) (s a b : str) :
  partition l s = Some (a, b) ->
  re_findall (lits l ++ r) s = re_findall (lits l ++ r) (l ++ b).
Proof.
  revert a. induction s as [|c s IH]; intros a H; rewrite partition_eq in H.
  - destruct (prefixb l []) eqn:E; [|discriminate]. injection H as <- <-.
    now rewrite <- (prefixb_spec l [] E).
  - destruct (prefixb l (c :: s)) eqn:E.
    + injection H as <- <-. now rewrite <- (prefixb_spec l (c :: s) E).
    + destruct (partition l s) as [[a' b']|] eqn:P; [|discriminate].
      injection H as <- <-. unfold re_findall.
      rewrite re_scan_text by (now rewrite match_lits, E).
      cbn [flat_map app]. exact (IH a' eq_refl).
Qed.

Lemma re_findall_none (l : str) (r : regex) (s : str) :
  partition l s = None -> re_findall (lits l ++ r) s = [].
Proof.
  induction s as [|c s IH]; intros H; [reflexivity|].
  rewrite partition_eq in H. destruct (prefixb l (c :: s)) eqn:E;
    [discriminate|].
  unfold re_findall. rewrite re_scan_text by (now rewrite match_lits, E).
  cbn [flat_map app]. apply IH.
  destruct (partition l s) as [[a b]|]; [discriminate|reflexivity].
Qed.

(** The group of the pattern takes the rest of the line. *)
Lemma match_rest_of_line (line rest : str) :
  line <> [] -> forallb not_newline line = true ->
  match rest with c :: _ => not_newline c = false | [] => True end ->
  match_here [GOpen; Cls not_newline; Star not_newline; GClose] [] []
    (line ++ rest)
  = Some ([line], rest).
Proof.
  intros Hn Hl Hr. destruct line as [|c line]; [congruence|].
  cbn [forallb] in Hl. apply andb_true_iff in Hl as [Hc Hl].
  cbn [match_here app]. rewrite Hc.
  apply star_greedy; [assumption|assumption|].
  cbn [match_here]. f_equal. f_equal.
  now apply (closed_group (c :: line ++ rest) (c :: line) rest).
Qed.

End LayoutString.

(** X13. The layout string of a section is the whole line after the first
    "Layout string (layer 1):" that ends its line, when that next line is
    not empty; a section where the marker never ends a line has none. *)
Theorem layout_string_search :
  (forall a line rest,
     partition ("Layout string (layer 1):" ++ newline) a = None ->
     line <> [] ->
     forallb not_newline line = true ->
     match rest with c :: _ => not_newline c = false | [] => True end ->
     re_search pat_layout_string
       (a ++ ("Layout string (layer 1):" ++ newline) ++ line ++ rest)
     = Some [line])
  /\ (forall section,
        contains ("Layout string (layer 1):" ++ newline) section = false ->
        re_search pat_layout_string section = None).
Proof.
  split.
  - intros a line rest Ha Hn Hl Hr. unfold re_search, pat_layout_string.
    rewrite (re_findall_first _ _ _ a (line ++ rest)).
    + unfold re_findall.
      rewrite (app_assoc _ line rest).
      rewrite (re_scan_match _ _ rest [line]).
      * reflexivity.
      * discriminate.
      * rewrite <- app_assoc, match_lits, prefixb_app.
        rewrite skipn_app, skipn_all, Nat.sub_diag. cbn [app skipn].
        now apply match_rest_of_line.
    + apply partition_border_free; [vm_compute; reflexivity|assumption].
  - intros section H. apply contains_false in H.
    unfold re_search, pat_layout_string. now rewrite re_findall_none.
Qed.

(** The layout string of a section with two lines after the marker. *)
Lemma layout_string_search_witness :
  re_search pat_layout_string
    ("Layout (layer 1):" ++ newline
       ++ ("Layout string (layer 1):" ++ newline)
       ++ "qwfpgjluy" ++ newline ++ "Cost: 1")
  = Some [lit "qwfpgjluy"].
Proof.
  apply (proj1 layout_string_search ("Layout (layer 1):" ++ newline)
           "qwfpgjluy" (newline ++ "Cost: 1")).
  - vm_compute. reflexivity.
  - discriminate.
  - reflexivity.
  - reflexivity.
Defined.

(* ================================================================== *)
(** * What the command leaves behind *)
(* ================================================================== *)

Section Growth.
Variable pf : platform.

Lemma grows_refl (w : world) : grows w w.
Proof. split; [auto|]. split; [auto|]. exists []. now rewrite app_nil_r. Qed.

Lemma grows_trans (w1 w2 w3 : world) :
  grows w1 w2 -> grows w2 w3 -> grows w1 w3.
Proof.
  intros (F1 & D1 & l1 & S1) (F2 & D2 & l2 & S2).
  split; [auto|]. split; [auto|]. exists (l1 ++ l2).
  now rewrite S2, S1, app_assoc.
Qed.

Lemma monotone_bind {A B} (c : io A) (k : A -> io B) :
  monotone c -> (forall a, monotone (k a)) -> monotone (iobind c k).
Proof.
  intros Hc Hk w r w' H. unfold iobind in H.
  destruct (c w) as [[a|e0] w0] eqn:E.
  - apply (grows_trans w w0 w'); [exact (Hc w _ w0 E)|exact (Hk a w0 r w' H)].
  - injection H as <- <-. exact (Hc w _ w0 E).
Qed.

Lemma monotone_pure {A} (c : io A) :
  (forall w, snd (c w) = w) -> monotone c.
Proof.
  intros H w r w' E. specialize (H w). rewrite E in H. cbn in H. subst.
  apply grows_refl.
Qed.

Lemma monotone_fold {A B} (f : B -> A -> io B) (l : list A) (b : B) :
  (forall b a, monotone (f b a)) -> monotone (io_fold f l b).
Proof.
  intros Hf. revert b. induction l as [|a l IH]; intros b; cbn [io_fold].
  - now apply monotone_pure.
  - apply monotone_bind; auto.
Qed.

Lemma monotone_echo (line : str) : monotone (echo line).
Proof.
  intros w r w' H. injection H as <- <-.
  split; [auto|]. split; [auto|]. now exists [line].
Qed.

Lemma in_list_cons (p q : str) (l : list str) :
  in_list p l = true -> in_list p (q :: l) = true.
Proof. unfold in_list. cbn [existsb]. intros ->. apply orb_true_r. Qed.

Lemma in_list_app_r (p : str) (l1 l2 : list str) :
  in_list p l2 = true -> in_list p (l1 ++ l2) = true.
Proof.
  unfold in_list. rewrite existsb_app. intros ->. apply orb_true_r.
Qed.

Lemma monotone_mkdir (p : path) : monotone (mkdir pf p).
Proof.
  intros w r w' H. unfold mkdir in H.
  destruct (is_dir w p); [injection H as <- <-; apply grows_refl|].
  destruct (is_file w p); [injection H as <- <-; apply grows_refl|].
  destruct (is_dir w (parent pf p)); injection H as <- <-;
    [|apply grows_refl].
  split; [auto|]. split.
  - intros q Hq. unfold is_dir in *. cbn [dirs]. now apply in_list_cons.
  - exists []. cbn [stdout]. now rewrite app_nil_r.
Qed.

Lemma monotone_mkdir_parents (p : path) : monotone (mkdir_parents pf p).
Proof.
  intros w r w' H. unfold mkdir_parents in H.
  destruct (existsb (is_file w) (p :: parents pf p));
    injection H as <- <-; [apply grows_refl|].
  split; [auto|]. split.
  - intros q Hq. unfold is_dir in *. cbn [dirs].
    apply in_list_cons. now apply in_list_app_r.
  - exists []. cbn [stdout]. now rewrite app_nil_r.
Qed.

Lemma monotone_read_text (p : path) : monotone (read_text p).
Proof.
  apply monotone_pure. intros w. unfold read_text.
  destruct (dict_get (files w) p); [reflexivity|].
  now destruct (is_dir w p).
Qed.

Lemma monotone_write_text (p : path) (text : str) :
  monotone (write_text pf p text).
Proof.
  intros w r w' H. unfold write_text in H.
  destruct (is_dir w p); [injection H as <- <-; apply grows_refl|].
  destruct (is_file w p || is_dir w (parent pf p));
    injection H as <- <-; [|apply grows_refl].
  split; [|split].
  - intros q Hq. unfold is_file in *. cbn [files]. now apply dict_mem_set.
  - auto.
  - exists []. cbn [stdout]. now rewrite app_nil_r.
Qed.

Lemma monotone_diagram_step (output_path : path)
  (generated : list (str * str)) (section : str) :
  monotone (diagram_step pf output_path generated section).
Proof.
  unfold diagram_step.
  destruct (re_search pat_layout_string section); [|now apply monotone_pure].
  destruct (is_nil (parse_layout_diagram section)); [now apply monotone_pure|].
  apply monotone_bind; [apply monotone_write_text|]. intros _.
  apply monotone_bind; [apply monotone_echo|]. intros _.
  now apply monotone_pure.
Qed.

Lemma monotone_parse_diagrams (txt_file output_dir : path) :
  monotone (parse_diagrams pf txt_file output_dir).
Proof.
  unfold parse_diagrams.
  apply monotone_bind; [now apply monotone_pure|]. intros found.
  destruct (negb found); [now apply monotone_pure|].
  apply monotone_bind; [apply monotone_mkdir|]. intros _.
  apply monotone_bind; [apply monotone_read_text|]. intros content.
  apply monotone_fold. intros b a. apply monotone_diagram_step.
Qed.

Lemma monotone_report_step (txt_file : path) (st : list row * path * str) :
  monotone (report_step pf txt_file st).
Proof.
  destruct st as [[records output_dir] output_base]. unfold report_step.
  apply monotone_bind; [now apply monotone_pure|]. intros found.
  destruct found; [|now apply monotone_pure].
  apply monotone_bind; [apply monotone_echo|]. intros _.
  apply monotone_bind; [apply monotone_echo|]. intros _.
  apply monotone_bind; [apply monotone_parse_diagrams|]. intros g.
  apply monotone_bind; [apply monotone_echo|]. intros _.
  apply monotone_write_text.
Qed.

Lemma monotone_export_csv (records : list row) (output_file : path) :
  monotone (export_csv pf records output_file).
Proof.
  unfold export_csv.
  apply monotone_bind; [apply monotone_write_text|]. intros _.
  apply monotone_bind; [apply monotone_write_text|]. intros _.
  apply monotone_bind; [|intros _; now apply monotone_pure].
  apply monotone_fold. intros rows rec.
  apply monotone_bind; [now apply monotone_pure|]. intros cells.
  apply monotone_bind; [apply monotone_write_text|]. intros _.
  now apply monotone_pure.
Qed.

Lemma monotone_parse_layouts (json_file : path) (corpus_name : option str) :
  monotone (parse_layouts pf json_file corpus_name).
Proof.
  unfold parse_layouts.
  apply monotone_bind; [apply monotone_read_text|]. intros text.
  apply monotone_bind; [now apply monotone_pure|]. intros data.
  apply monotone_bind; [|intros fr; now apply monotone_pure].
  destruct (given corpus_name) as [c|]; [|now apply monotone_pure].
  unfold load_bigram_frequencies.
  destruct (get_corpus_paths pf c) as [[root dir] file].
  apply monotone_bind; [apply monotone_read_text|]. intros t.
  now apply monotone_pure.
Qed.

Lemma monotone_csv_step (json_file : path) (out corpus : option str) :
  monotone (csv_step pf json_file out corpus).
Proof.
  unfold csv_step.
  destruct (match given out with
            | Some o => (Path pf o, name pf (Path pf o))
            | None => (Path pf (stem pf json_file ++ "_layouts"),
                       stem pf json_file)
            end) as [dir base].
  apply monotone_bind; [apply monotone_mkdir_parents|]. intros _.
  apply monotone_bind; [apply monotone_parse_layouts|]. intros records.
  apply monotone_bind; [apply monotone_echo|]. intros _.
  apply monotone_bind; [apply monotone_export_csv|]. intros _.
  now apply monotone_pure.
Qed.

End Growth.

(** X14. Whether it returns or raises, [main] removes no file and no
    directory, and what was on the output stays there, with lines added
    after it. *)
Theorem main_only_adds :
  forall pf json_file out corpus w r w',
    main pf json_file out corpus w = (r, w') ->
    (forall p, is_file w p = true -> is_file w' p = true)
    /\ (forall p, is_dir w p = true -> is_dir w' p = true)
    /\ exists lines, stdout w' = stdout w ++ lines.
Proof.
  intros pf json_file out corpus w r w' H.
  assert (M : monotone (main pf json_file out corpus)).
  { unfold main. apply monotone_bind; [apply monotone_csv_step|].
    intros st. apply monotone_report_step. }
  exact (M w r w' H).
Qed.

(** A run that fails at once, the results file missing: the file "notes"
    is still there. *)
Lemma main_only_adds_witness :
  (forall p,
     is_file (World [(lit "notes", lit "x")] [lit "."] []) p = true ->
     is_file (World [(lit "notes", lit "x")]
                [lit "results_layouts"; lit "."; lit "."] []) p = true)
  /\ (forall p,
        is_dir (World [(lit "notes", lit "x")] [lit "."] []) p = true ->
        is_dir (World [(lit "notes", lit "x")]
                  [lit "results_layouts"; lit "."; lit "."] []) p = true)
  /\ exists lines,
       stdout (World [(lit "notes", lit "x")]
                 [lit "results_layouts"; lit "."; lit "."] [])
       = stdout (World [(lit "notes", lit "x")] [lit "."] []) ++ lines.
Proof.
  apply (main_only_adds sample_platform "results.json" None None
           (World [(lit "notes", lit "x")] [lit "."] [])
           (Raise (FileNotFoundError (enoent "results.json")))).
  vm_compute. reflexivity.
Defined.

Section Outputs.
Variable pf : platform.






Lemma read_text_ok (p : path) (text : str) (w w' : world) :
  read_text p w = (Ok text, w') ->
  w' = w /\ dict_get (files w) p = Some text.
Proof.
  unfold read_text. destruct (dict_get (files w) p) as [t|].
  - intros [= <- <-]. auto.
  - destruct (is_dir w p); discriminate.
Qed.






End Outputs.





(* ================================================================== *)
(** * Errors of the corpus loader *)
(* ================================================================== *)

Section LoaderErrors.

Lemma float_of_str_error (s : str) (e : exn) :
  float_of_str s = Raise e -> e = ValueError s.
Proof.
  unfold float_of_str.
  destruct (read_sign (strip_by is_float_space s)) as [neg body].
  destruct (str_eqb (lower body) "inf" || str_eqb (lower body) "infinity");
    [discriminate|].
  destruct (str_eqb (lower body) "nan"); [discriminate|].
  destruct (read_number neg body); [discriminate|]. now intros [= <-].
Qed.

Lemma parse_line_error (line : str) (e : exn) :
  parse_line line = Raise e
  <-> exists p0 p1 rest,
        split " " (strip line) = p0 :: p1 :: rest
        /\ float_of_str p0 = Raise e.
Proof.
  unfold parse_line.
  destruct (split " " (strip line)) as [|p0 [|p1 rest]].
  - split; [discriminate|]. intros (? & ? & ? & H & _). discriminate.
  - split; [discriminate|]. intros (? & ? & ? & H & _). discriminate.
  - cbn [length Nat.leb index nth_error bind].
    destruct (float_of_str p0) as [x|e'] eqn:F; cbn [bind].
    + split.
      * destruct ((length p1 =? 2) && isalpha p1); discriminate.
      * intros (q0 & q1 & r & [= <- <- <-] & H). congruence.
    + split.
      * intros [= <-]. eauto.
      * intros (q0 & q1 & r & [= <- <- <-] & H). congruence.
Qed.

Lemma load_line_error (frequencies : dict float) (line : str) (e : exn) :
  load_line frequencies line = Raise e <-> parse_line line = Raise e.
Proof.
  unfold load_line. destruct (parse_line line) as [[[b x]|]|e'];
    cbn [bind]; split; try discriminate; intros [= <-]; reflexivity.
Qed.

Lemma load_line_ok (frequencies : dict float) (line : str)
  (entry : option (str * float)) :
  parse_line line = Ok entry ->
  exists frequencies', load_line frequencies line = Ok frequencies'.
Proof.
  intros H. unfold load_line. rewrite H. cbn [bind].
  destruct entry as [[b x]|]; eauto.
Qed.

(** The load fails at the first line that fails. *)
Lemma load_lines_error (lines : list str) (frequencies : dict float)
  (e : exn) :
  load_lines frequencies lines = Raise e
  <-> exists before line after,
        lines = before ++ line :: after
        /\ Forall (fun l => exists entry, parse_line l = Ok entry) before
        /\ parse_line line = Raise e.
Proof.
  revert frequencies. induction lines as [|l lines IH]; intros frequencies;
    cbn [load_lines].
  - split; [discriminate|]. intros (b & ? & ? & H & _).
    destruct b; discriminate.
  - destruct (load_line frequencies l) as [fr'|e'] eqn:L; cbn [bind].
    + rewrite IH. split.
      * intros (b & line & a & -> & Hb & Hl). exists (l :: b), line, a.
        split; [reflexivity|]. split; [|assumption].
        constructor; [|assumption].
        unfold load_line in L. destruct (parse_line l) as [entry|];
          [eauto|discriminate].
      * intros (b & line & a & E & Hb & Hl). destruct b as [|l' b].
        -- injection E as <- <-. apply (load_line_error frequencies) in Hl.
           congruence.
        -- injection E as <- ->. inversion Hb. subst. eauto 6.
    + apply load_line_error in L. split.
      * intros [= <-]. exists [], l, lines. auto.
      * intros (b & line & a & E & Hb & Hl). destruct b as [|l' b].
        -- injection E as <- <-. congruence.
        -- injection E as <- ->. inversion Hb as [|? ? [entry He] ?].
           congruence.
Qed.

End LoaderErrors.

(** X17. A line of the corpus file makes the load fail exactly when it has
    at least two parts and [float] rejects the first one, whatever the
    second part is: the number is read before the bigram is tested. The
    error is the [ValueError] of that first part. A line with fewer than two
    parts is passed over. The load of a list of lines fails exactly at its
    first such line. *)
Theorem load_bigram_frequencies_errors :
  (forall line e,
     parse_line line = Raise e
     <-> exists p0 p1 rest,
           split " " (strip line) = p0 :: p1 :: rest
           /\ float_of_str p0 = Raise e /\ e = ValueError p0)
  /\ (forall line,
        length (split " " (strip line)) < 2 -> parse_line line = Ok None)
  /\ (forall lines frequencies e,
        load_lines frequencies lines = Raise e
        <-> exists before line after,
              lines = before ++ line :: after
              /\ Forall (fun l => exists entry, parse_line l = Ok entry)
                   before
              /\ parse_line line = Raise e).
Proof.
  split; [|split].
  - intros line e. rewrite parse_line_error. split.
    + intros (p0 & p1 & rest & H & F). exists p0, p1, rest.
      split; [assumption|]. split; [assumption|].
      now apply float_of_str_error.
    + intros (p0 & p1 & rest & H & F & _). eauto.
  - intros line H. unfold parse_line.
    destruct (2 <=? length (split " " (strip line))) eqn:E; [|reflexivity].
    apply Nat.leb_le in E. lia.
  - intros lines frequencies e. apply load_lines_error.
Qed.

(** A header line stops the load although its second part is no bigram. *)
Lemma load_bigram_frequencies_errors_witness :
  load_lines [] [lit "12 th"; lit "count bigram"; lit "7 he"]
  = Raise (ValueError "count").
Proof.
  apply (proj2 (proj2 load_bigram_frequencies_errors)).
  exists [lit "12 th"], (lit "count bigram"), [lit "7 he"].
  split; [reflexivity|]. split.
  - constructor; [|constructor]. eexists. vm_compute. reflexivity.
  - vm_compute. reflexivity.
Defined.

(* ================================================================== *)
(** * Errors of the command *)
(* ================================================================== *)

Section CommandErrors.
Variable pf : platform.





Lemma load_lines_value_error (lines : list str) (frequencies : dict float)
  (e : exn) :
  load_lines frequencies lines = Raise e -> exists p, e = ValueError p.
Proof.
  intros H. apply load_lines_error in H as (b & line & a & _ & _ & H).
  apply parse_line_error in H as (p0 & _ & _ & _ & H).
  apply float_of_str_error in H. eauto.
Qed.

Lemma layout_records_value_error (data : list RawResult)
  (bigram_frequencies : dict float) (e : exn) :
  layout_records data bigram_frequencies = Raise e ->
  exists p, e = ValueError p.
Proof.
  intros H. apply layout_records_error in H as (raw & _ & H).
  apply metrics_loop_error in H as (mc & _ & H).
  apply stored_message_error in H as (_ & _ & H).
  apply extract_worst_bigrams_error in H as (p & -> & _). eauto.
Qed.

(** [parse_layouts] only reads; what it returns has the thirteen keys and
    what it raises is an error of [main_error]. *)
Lemma parse_layouts_ok (json_file : path) (corpus_name : option str)
  (w : world) (r : result (list row)) (w' : world) :
  parse_layouts pf json_file corpus_name w = (r, w') ->
  w' = w
  /\ match r with
     | Ok records => Forall (fun r => dict_keys r = COLUMN_HEADERS) records
     | Raise e => main_error pf e
     end.
Proof.
  unfold parse_layouts. intros H. unfold iobind at 1 in H.
  destruct (read_text json_file w) as [[text|e] w1] eqn:R.
  - apply read_text_ok in R as (-> & _).
    unfold iobind at 1, lift at 1 in H.
    destruct (json_load pf text) as [data|e] eqn:J.
    + unfold iobind at 1 in H.
      assert (L : forall fr w2,
                 lift (layout_records data fr) w2 = (r, w') ->
                 w' = w2
                 /\ match r with
                    | Ok records =>
                        Forall (fun r => dict_keys r = COLUMN_HEADERS) records
                    | Raise e => main_error pf e
                    end).
      { intros fr w2 [= <- <-]. split; [reflexivity|].
        destruct (layout_records data fr) as [records|e] eqn:E.
        - exact (layout_records_keys data fr records E).
        - right. right. exact (layout_records_value_error data fr e E). }
      destruct (given corpus_name) as [c|].
      * unfold load_bigram_frequencies in H.
        destruct (get_corpus_paths pf c) as [[root dir] file].
        unfold iobind at 1 in H.
        destruct (read_text file w) as [[t|e] w2] eqn:R2.
        -- apply read_text_ok in R2 as (-> & _). unfold lift at 1 in H.
           destruct (load_lines [] (readlines t)) as [fr|e] eqn:LL.
           ++ now apply L in H.
           ++ injection H as <- <-. split; [reflexivity|]. right. right.
              exact (load_lines_value_error _ _ e LL).
        -- injection H as <- <-. split.
           ++ unfold read_text in R2.
              destruct (dict_get (files w) file); [discriminate|].
              destruct (is_dir w file); now injection R2 as _ <-.
           ++ left. exact (raises_only_read_text file w e w2 R2).
      * unfold ret at 1 in H. now apply L in H.
    + injection H as <- <-. split; [reflexivity|]. right. left. eauto.
  - injection H as <- <-. split.
    + unfold read_text in R. destruct (dict_get (files w) json_file);
        [discriminate|].
      destruct (is_dir w json_file); now injection R as _ <-.
    + left. exact (raises_only_read_text json_file w e w1 R).
Qed.




End CommandErrors.

(** X18. [parse_layouts] only reads: the world is the same after it, whether
    it returns or raises. Without a corpus name, and also with the empty
    string for one, it returns one record per result of the JSON file as
    soon as the file is read and parsed. *)
Theorem parse_layouts_reads_only :
  (forall pf json_file corpus_name w r w',
     parse_layouts pf json_file corpus_name w = (r, w') -> w' = w)
  /\ (forall pf json_file text data w,
        dict_get (files w) json_file = Some text ->
        json_load pf text = Ok data ->
        exists records,
          parse_layouts pf json_file None w = (Ok records, w)
          /\ parse_layouts pf json_file (Some []) w = (Ok records, w)
          /\ length records = length data).
Proof.
  split.
  - intros pf json_file corpus_name w r w' H.
    now apply parse_layouts_ok in H.
  - intros pf json_file text data w F J.
    destruct (layout_records data []) as [records|e] eqn:E.
    + exists records.
      assert (P : parse_layouts pf json_file None w = (Ok records, w)).
      { unfold parse_layouts, iobind, read_text. rewrite F.
        unfold lift. rewrite J. cbn [given]. unfold ret. now rewrite E. }
      split; [exact P|]. split; [exact P|].
      exact (layout_records_length data [] records E).
    + exfalso. apply layout_records_error in E as (raw & _ & E).
      apply metrics_loop_error in E as (mc & _ & E).
      apply stored_message_error in E as (_ & N & _). now apply N.
Qed.

(** The records of a JSON file with no result. *)
Lemma parse_layouts_reads_only_witness :
  exists records,
    parse_layouts sample_platform "results.json" None
      (World [(lit "results.json", lit "[]")] [lit "."] [])
    = (Ok records, World [(lit "results.json", lit "[]")] [lit "."] [])
    /\ parse_layouts sample_platform "results.json" (Some [])
         (World [(lit "results.json", lit "[]")] [lit "."] [])
       = (Ok records, World [(lit "results.json", lit "[]")] [lit "."] [])
    /\ length records = length (@nil RawResult).
Proof.
  apply (proj2 parse_layouts_reads_only sample_platform "results.json" "[]").
  - reflexivity.
  - reflexivity.
Defined.


